(** * Lifecycle controller of the voice-to-text screen (src/App.tsx)

    A shallow embedding of [VoiceToTextScreen]: the React state cells, the two
    module-level globals ([Whisper], [sound]), every handler split at its
    [await] points, and the transition system that the buttons and the
    asynchronous resumptions generate. *)

From Stdlib Require Import ZArith QArith Lia.
From stdpp Require Import base option list strings pretty.

Local Set Warnings "-register-all".

Local Open Scope string_scope.
Local Open Scope list_scope.

(** ** JavaScript values *)

(** Failures thrown by the code or raised by a collaborator are [Error]
    objects; the handlers only ever read their [message]. *)
Record JsError := mkError { message : string }.

(** The values the controller inspects by duck typing: plain data, functions
    (opaque, with their declared arity) and promises together with the way
    they settle. *)
Inductive JsVal :=
| VUndefined
| VNull
| VBool (b : bool)
| VNum (n : Z)
| VStr (s : string)
| VArr (items : list JsVal)
| VObj (fields : list (string * JsVal))
| VFun (arity : nat)
| VPromise (p : Settlement)
with Settlement :=
| Fulfilled (v : JsVal)
| RejectedWith (e : JsError)
| Pending.

(** Normal or abrupt completion of an expression. *)
Inductive Completion (A : Type) :=
| Normal (a : A)
| Throw (e : JsError).
Arguments Normal {A} a.
Arguments Throw {A} e.

Definition bind {A B} (c : Completion A) (k : A -> Completion B) : Completion B :=
  match c with
  | Normal a => k a
  | Throw e => Throw e
  end.

Notation "'let*' x := c 'in' k" := (bind c (fun x => k))
  (at level 10, x name, c at level 100, k at level 200).

(** ToBoolean. *)
Definition truthy (v : JsVal) : bool :=
  match v with
  | VUndefined | VNull => false
  | VBool b => b
  | VNum n => negb (n =? 0)%Z
  | VStr s => negb (String.eqb s "")
  | VArr _ | VObj _ | VFun _ | VPromise _ => true
  end.

(** [typeof v === 'object'] and [typeof v === 'function']. *)
Definition typeof_object (v : JsVal) : bool :=
  match v with
  | VNull | VArr _ | VObj _ | VPromise _ => true
  | _ => false
  end.

Definition typeof_function (v : JsVal) : bool :=
  match v with
  | VFun _ => true
  | _ => false
  end.

Fixpoint own_field (fields : list (string * JsVal)) (k : string) : JsVal :=
  match fields with
  | [] => VUndefined
  | (k', v) :: rest => if String.eqb k' k then v else own_field rest k
  end.

(** What the JavaScript engine decides and the source does not: the wording of
    its TypeErrors, string conversions of non-strings, and the behaviour of
    function-valued fields supplied by a collaborator. *)
Record Runtime := {
  (** [JSON.stringify(v)] converted to a string by the [+] that follows it, or
      the failure it throws (a [toJSON] that throws, for one) *)
  stringify : JsVal -> Completion string;
  (** ToString, or the failure thrown by a [toString] or [valueOf] it calls *)
  to_string : JsVal -> Completion string;
  to_string_str : forall s, to_string (VStr s) = Normal s;
  (** message of the TypeError for reading property [k] of [null]/[undefined] *)
  nullish_message : JsVal -> string -> string;
  (** message of the TypeError for calling the non-function [v.k] *)
  not_callable_message : JsVal -> string -> string;
  (** [v > 0] for a string, array or object [v], or the failure thrown while
      [v] is converted to a number *)
  coerced_gt_zero : JsVal -> Completion bool;
  (** completion of [o.map(f).join(' ')] when [o.map] is a function field of [o] *)
  own_map_join : JsVal -> Completion JsVal;
  (** settlement of a thenable object *)
  thenable_settles : JsVal -> Settlement
}.

Section Values.
Context (rt : Runtime).

(** Property read [v.k], for the keys the controller uses ([promise], [text],
    [result], [segments], [length], [map], [transcribe]). Only plain objects
    carry fields of their own; strings, arrays and functions answer for what
    their prototypes define among these keys. *)
Definition get_prop (v : JsVal) (k : string) : Completion JsVal :=
  match v with
  | VUndefined | VNull => Throw (mkError (nullish_message rt v k))
  | VBool _ | VNum _ | VPromise _ => Normal VUndefined
  | VStr s =>
      Normal (if String.eqb k "length" then VNum (Z.of_nat (String.length s))
              else VUndefined)
  | VArr items =>
      Normal (if String.eqb k "length" then VNum (Z.of_nat (length items))
              else if String.eqb k "map" then VFun 1
              else VUndefined)
  | VFun arity =>
      Normal (if String.eqb k "length" then VNum (Z.of_nat arity) else VUndefined)
  | VObj fields => Normal (own_field fields k)
  end.

(** [v > 0]. *)
Definition gt_zero (v : JsVal) : Completion bool :=
  match v with
  | VUndefined | VNull | VFun _ | VPromise _ => Normal false
  | VBool b => Normal b
  | VNum n => Normal (0 <? n)%Z
  | VStr _ | VArr _ | VObj _ => coerced_gt_zero rt v
  end.

(** The value an [await] resumes with; a promise fulfilled with a promise or a
    thenable adopts its settlement. *)
Fixpoint await (v : JsVal) : Settlement :=
  match v with
  | VPromise p =>
      match p with
      | Fulfilled v' => await v'
      | RejectedWith e => RejectedWith e
      | Pending => Pending
      end
  | VObj fields =>
      if typeof_function (own_field fields "then") then thenable_settles rt v
      else Fulfilled v
  | _ => Fulfilled v
  end.

(** [Array.prototype.join]: [undefined] and [null] print as the empty string. *)
Definition join_piece (v : JsVal) : Completion string :=
  match v with
  | VUndefined | VNull => Normal ""
  | _ => to_string rt v
  end.

Fixpoint join_with (sep : string) (pieces : list string) : string :=
  match pieces with
  | [] => ""
  | [p] => p
  | p :: rest => p +:+ sep +:+ join_with sep rest
  end.

(** [items.map(segment => segment.text)] *)
Fixpoint map_text (items : list JsVal) : Completion (list JsVal) :=
  match items with
  | [] => Normal []
  | segment :: rest =>
      let* t := get_prop segment "text" in
      let* ts := map_text rest in
      Normal (t :: ts)
  end.

(** The strings [join] makes of the elements, in order. *)
Fixpoint join_pieces (vs : list JsVal) : Completion (list string) :=
  match vs with
  | [] => Normal []
  | v :: rest =>
      let* p := join_piece v in
      let* ps := join_pieces rest in
      Normal (p :: ps)
  end.

(** [segments.map(segment => segment.text).join(' ')] *)
Definition segments_text (segments : JsVal) : Completion JsVal :=
  match segments with
  | VArr items =>
      let* ts := map_text items in
      let* pieces := join_pieces ts in
      Normal (VStr (join_with " " pieces))
  | VObj fields =>
      if typeof_function (own_field fields "map") then own_map_join rt segments
      else Throw (mkError (not_callable_message rt segments "map"))
  | _ => Throw (mkError (not_callable_message rt segments "map"))
  end.

End Values.

(** ** The controller's state *)

(** Calls made to the collaborators, in the order they are made. *)
Inductive Call :=
| CPermissionRequest
| CAudioInit
| CAudioStart
| CAudioStop
| CExists (path : string)
| CCopyFileAssets (name dest : string)
| CCopyFile (source dest : string)
| CInitWhisper (path : string)
| CMoveFile (source dest : string)
| CStat (path : string)
| CUnlink (path : string)
| CTranscribe (audio : string)
| CSoundNew (path : string)
| CSoundGetDuration
| CSoundPlay
| CSoundStop.

(** A handler suspended at an [await], or a callback handed to the playback
    collaborator and not yet called. *)
Inductive Task :=
| TPermission
| TSetup
| TInitExists
| TInitCopy
| TInitWhisper
| TStopCapture
| TStopMove (filePath : string)
| TStopStat (filePath : string)
| TProcTranscribe (returned : JsVal)
| TProcPromise (promise : JsVal)
| TDeleteUnlink
| TSoundLoad
| TSoundPlay
| TSoundStop.

(** The seven [useState] cells, the two module-level globals, and what the
    surroundings observe: collaborator calls, suspended handlers, and the
    failures that left a handler uncaught. *)
Record World := mkWorld {
  isRecording : bool;
  transcription : JsVal;
  isProcessing : bool;
  audioFile : option string;
  isPlaying : bool;
  audioDuration : Q;
  debugLogs : list string;
  Whisper : JsVal;
  sound : option string;
  calls : list Call;
  pending : list Task;
  uncaught : list JsError
}.

Definition initial_world : World :=
  {| isRecording := false; transcription := VStr ""; isProcessing := false;
     audioFile := None; isPlaying := false; audioDuration := 0%Q;
     debugLogs := []; Whisper := VUndefined; sound := None;
     calls := []; pending := []; uncaught := [] |}.

Definition setIsRecording (b : bool) (w : World) : World :=
  mkWorld b (transcription w) (isProcessing w) (audioFile w) (isPlaying w)
    (audioDuration w) (debugLogs w) (Whisper w) (sound w) (calls w) (pending w)
    (uncaught w).

Definition setTranscription (v : JsVal) (w : World) : World :=
  mkWorld (isRecording w) v (isProcessing w) (audioFile w) (isPlaying w)
    (audioDuration w) (debugLogs w) (Whisper w) (sound w) (calls w) (pending w)
    (uncaught w).

Definition setIsProcessing (b : bool) (w : World) : World :=
  mkWorld (isRecording w) (transcription w) b (audioFile w) (isPlaying w)
    (audioDuration w) (debugLogs w) (Whisper w) (sound w) (calls w) (pending w)
    (uncaught w).

Definition setAudioFile (f : option string) (w : World) : World :=
  mkWorld (isRecording w) (transcription w) (isProcessing w) f (isPlaying w)
    (audioDuration w) (debugLogs w) (Whisper w) (sound w) (calls w) (pending w)
    (uncaught w).

Definition setIsPlaying (b : bool) (w : World) : World :=
  mkWorld (isRecording w) (transcription w) (isProcessing w) (audioFile w) b
    (audioDuration w) (debugLogs w) (Whisper w) (sound w) (calls w) (pending w)
    (uncaught w).

Definition setAudioDuration (d : Q) (w : World) : World :=
  mkWorld (isRecording w) (transcription w) (isProcessing w) (audioFile w)
    (isPlaying w) d (debugLogs w) (Whisper w) (sound w) (calls w) (pending w)
    (uncaught w).

(** [setDebugLogs(prevLogs => [...prevLogs, message])] *)
Definition addDebugLog (m : string) (w : World) : World :=
  mkWorld (isRecording w) (transcription w) (isProcessing w) (audioFile w)
    (isPlaying w) (audioDuration w) (debugLogs w ++ [m]) (Whisper w) (sound w)
    (calls w) (pending w) (uncaught w).

Definition assign_Whisper (v : JsVal) (w : World) : World :=
  mkWorld (isRecording w) (transcription w) (isProcessing w) (audioFile w)
    (isPlaying w) (audioDuration w) (debugLogs w) v (sound w) (calls w)
    (pending w) (uncaught w).

Definition assign_sound (s : option string) (w : World) : World :=
  mkWorld (isRecording w) (transcription w) (isProcessing w) (audioFile w)
    (isPlaying w) (audioDuration w) (debugLogs w) (Whisper w) s (calls w)
    (pending w) (uncaught w).

Definition call (c : Call) (w : World) : World :=
  mkWorld (isRecording w) (transcription w) (isProcessing w) (audioFile w)
    (isPlaying w) (audioDuration w) (debugLogs w) (Whisper w) (sound w)
    (calls w ++ [c]) (pending w) (uncaught w).

Definition suspend (t : Task) (w : World) : World :=
  mkWorld (isRecording w) (transcription w) (isProcessing w) (audioFile w)
    (isPlaying w) (audioDuration w) (debugLogs w) (Whisper w) (sound w)
    (calls w) (pending w ++ [t]) (uncaught w).

Definition resume (i : nat) (w : World) : World :=
  mkWorld (isRecording w) (transcription w) (isProcessing w) (audioFile w)
    (isPlaying w) (audioDuration w) (debugLogs w) (Whisper w) (sound w)
    (calls w) (delete i (pending w)) (uncaught w).

(** A failure that no [catch] of the handler intercepts: the handler's promise
    rejects, or the callback throws into the collaborator that called it. *)
Definition escape (e : JsError) (w : World) : World :=
  mkWorld (isRecording w) (transcription w) (isProcessing w) (audioFile w)
    (isPlaying w) (audioDuration w) (debugLogs w) (Whisper w) (sound w)
    (calls w) (pending w) (uncaught w ++ [e]).

(** [if (audioFile)]: a path is truthy unless it is the empty string. *)
Definition asset_present (w : World) : option string :=
  match audioFile w with
  | Some path => if String.eqb path "" then None else Some path
  | None => None
  end.

(** ** The handlers *)

(** What the device fixes for a whole session: the platform, the directories
    of the file store, and what [Whisper.transcribe(audio, {language: 'hi'})]
    returns (or throws) when the engine object really has that function. *)
Record Device := {
  android : bool;
  DocumentDirectoryPath : string;
  MainBundlePath : string;
  ExternalDirectoryPath : string;
  transcribe_returns : string -> Completion JsVal
}.

Section Handlers.
Context (rt : Runtime) (dev : Device).

Definition modelFileName : string := "ggml-base.bin".
Definition modelPath : string := DocumentDirectoryPath dev +:+ "/" +:+ modelFileName.

Definition show_bool (b : bool) : string := if b then "true" else "false".

(** *** setupAudioRecord, requestMicrophonePermission *)

(** From [AudioRecord.init(options)] to the end of [setupAudioRecord]. *)
Definition setupAudioRecord_init (init : Completion ()) (w : World) : World :=
  let w := call CAudioInit w in
  match init with
  | Normal _ => addDebugLog "Audio Record initialized" w
  | Throw e => escape e w
  end.

Definition setupAudioRecord (init : Completion ()) (w : World) : World :=
  if android dev then suspend TPermission (call CPermissionRequest w)
  else setupAudioRecord_init init w.

(** Resumption of [await PermissionsAndroid.request(...)] inside
    [requestMicrophonePermission]; [granted] is compared with
    [PermissionsAndroid.RESULTS.GRANTED], the string ["granted"]. The function
    returns after logging, and [setupAudioRecord], which awaits it, is resumed
    in a step of its own. *)
Definition requestMicrophonePermission_answered
    (granted : Completion string) (w : World) : World :=
  let w :=
    match granted with
    | Normal g =>
        if negb (String.eqb g "granted")
        then addDebugLog "Microphone permission denied" w
        else addDebugLog "Microphone permission granted" w
    | Throw err =>
        addDebugLog ("Error requesting microphone permission: " +:+ message err) w
    end in
  suspend TSetup w.

(** Resumption of [await requestMicrophonePermission()] in
    [setupAudioRecord]. *)
Definition setupAudioRecord_resumed (init : Completion ()) (w : World) : World :=
  setupAudioRecord_init init w.

(** *** initWhispers *)

Definition initWhispers_catch (error : JsError) (w : World) : World :=
  addDebugLog ("Failed to initialize Whisper: " +:+ message error) w.

Definition initWhispers (w : World) : World :=
  let w := addDebugLog "Initializing Whisper..." w in
  suspend TInitExists (call (CExists modelPath) w).

Definition initWhispers_init (w : World) : World :=
  suspend TInitWhisper (call (CInitWhisper modelPath) w).

(** Resumption of [await RNFS.exists(modelPath)]. *)
Definition initWhispers_checked (modelExists : Completion bool) (w : World) : World :=
  match modelExists with
  | Throw error => initWhispers_catch error w
  | Normal modelExists =>
      let w := addDebugLog ("Model exists: " +:+ show_bool modelExists) w in
      let w := addDebugLog ("Model path: " +:+ modelPath) w in
      if negb modelExists then
        if android dev
        then suspend TInitCopy (call (CCopyFileAssets modelFileName modelPath) w)
        else suspend TInitCopy
               (call (CCopyFile (MainBundlePath dev +:+ "/" +:+ modelFileName)
                        modelPath) w)
      else initWhispers_init w
  end.

(** Resumption of [await RNFS.copyFileAssets(...)] / [await RNFS.copyFile(...)]. *)
Definition initWhispers_copied (copied : Completion ()) (w : World) : World :=
  match copied with
  | Throw error => initWhispers_catch error w
  | Normal _ => initWhispers_init (addDebugLog "Model file copied" w)
  end.

(** Resumption of [Whisper = await initWhisper({filePath: modelPath})]: the
    global is assigned first, the check of the engine object follows. *)
Definition initWhispers_initialized (engine : Completion JsVal) (w : World) : World :=
  match engine with
  | Throw error => initWhispers_catch error w
  | Normal engine =>
      let w := assign_Whisper engine w in
      let usable :=
        if negb (truthy (Whisper w)) then Normal false
        else let* transcribe := get_prop rt (Whisper w) "transcribe" in
             Normal (typeof_function transcribe) in
      match usable with
      | Throw error => initWhispers_catch error w
      | Normal false =>
          initWhispers_catch (mkError "Whisper not properly initialized") w
      | Normal true =>
          match stringify rt (Whisper w) with
          | Throw error => initWhispers_catch error w
          | Normal json =>
              let w := addDebugLog ("Whisper object: " +:+ json) w in
              addDebugLog "Whisper initialized successfully" w
          end
      end
  end.

(** *** startRecording *)

Definition startRecording (started : Completion ()) (w : World) : World :=
  let w := setIsRecording true w in
  let w := call CAudioStart w in
  match started with
  | Normal _ => addDebugLog "Started recording" w
  | Throw e => escape e w
  end.

(** *** processAudio *)

(** The [catch] block followed by the [finally] block. *)
Definition processAudio_catch (error : JsError) (w : World) : World :=
  let w := addDebugLog ("Error processing audio: " +:+ message error) w in
  let w := setTranscription (VStr ("Error processing audio: " +:+ message error)) w in
  setIsProcessing false w.

(** The end of the [try] block: the transcript is set, or the failure goes to
    [catch]; [finally] runs in both cases. *)
Definition processAudio_settle (text : Completion JsVal) (w : World) : World :=
  match text with
  | Normal text => setIsProcessing false (setTranscription text w)
  | Throw error => processAudio_catch error w
  end.

(** [Whisper.transcribe(audio, options)], evaluated with a truthy [Whisper]. *)
Definition call_transcribe (audio : string) (w : World) : Completion JsVal * World :=
  match get_prop rt (Whisper w) "transcribe" with
  | Throw error => (Throw error, w)
  | Normal transcribe =>
      if typeof_function transcribe
      then (transcribe_returns dev audio, call (CTranscribe audio) w)
      else (Throw (mkError (not_callable_message rt (Whisper w) "transcribe")), w)
  end.

(** From the call of [processAudio(audio)] to its first [await]. *)
Definition processAudio (audio : string) (w : World) : World :=
  let w := setIsProcessing true w in
  let w := addDebugLog "Processing audio..." w in
  if negb (truthy (Whisper w))
  then processAudio_catch (mkError "Whisper not initialized") w
  else
    let w := addDebugLog "Starting transcription..." w in
    match call_transcribe audio w with
    | (Normal returned, w) => suspend (TProcTranscribe returned) w
    | (Throw error, w) => processAudio_catch error w
    end.

(** The branches on the resolved value of [result.promise]: the value handed
    to [setTranscription], or the failure thrown. *)
Definition resolved_text (transcriptionResult : JsVal) : Completion JsVal :=
  let* has_result :=
    if truthy transcriptionResult
    then let* r := get_prop rt transcriptionResult "result" in Normal (truthy r)
    else Normal false in
  if has_result then get_prop rt transcriptionResult "result"
  else
    let* has_segments :=
      if truthy transcriptionResult
      then let* segments := get_prop rt transcriptionResult "segments" in
           if truthy segments
           then let* len := get_prop rt segments "length" in gt_zero rt len
           else Normal false
      else Normal false in
    if has_segments
    then let* segments := get_prop rt transcriptionResult "segments" in
         segments_text rt segments
    else Throw (mkError "No transcription text in resolved result").

(** [result && typeof result === 'object' && result.promise] *)
Definition promise_shaped (result : JsVal) : Completion bool :=
  if truthy result && typeof_object result
  then let* p := get_prop rt result "promise" in Normal (truthy p)
  else Normal false.

(** [result && result.text] *)
Definition text_shaped (result : JsVal) : Completion bool :=
  if truthy result
  then let* t := get_prop rt result "text" in Normal (truthy t)
  else Normal false.

(** The branches on [result] that follow the log entry. *)
Definition processAudio_branches (result : JsVal) (w : World) : World :=
  match promise_shaped result with
  | Throw error => processAudio_catch error w
  | Normal true =>
      match get_prop rt result "promise" with
      | Normal promise => suspend (TProcPromise promise) w
      | Throw error => processAudio_catch error w
      end
  | Normal false =>
      match text_shaped result with
      | Throw error => processAudio_catch error w
      | Normal true => processAudio_settle (get_prop rt result "text") w
      | Normal false =>
          processAudio_catch (mkError "Unexpected transcription result format") w
      end
  end.

(** Resumption of [await Whisper.transcribe(audio, options)] with the value
    [result] it resolved to, up to the next [await] or to the end. The log
    entry is built first; a [JSON.stringify] that throws goes to [catch]. *)
Definition processAudio_result (result : JsVal) (w : World) : World :=
  match stringify rt result with
  | Throw error => processAudio_catch error w
  | Normal json =>
      processAudio_branches result
        (addDebugLog ("Raw transcription result: " +:+ json) w)
  end.

Definition processAudio_transcribed (returned : JsVal) (w : World) : World :=
  match await rt returned with
  | Fulfilled result => processAudio_result result w
  | RejectedWith error => processAudio_catch error w
  | Pending => w
  end.

(** Resumption of [await result.promise]. *)
Definition processAudio_resolved (promise : JsVal) (w : World) : World :=
  match await rt promise with
  | Fulfilled transcriptionResult =>
      match stringify rt transcriptionResult with
      | Throw error => processAudio_catch error w
      | Normal json =>
          let w := addDebugLog ("Resolved transcription result: " +:+ json) w in
          processAudio_settle (resolved_text transcriptionResult) w
      end
  | RejectedWith error => processAudio_catch error w
  | Pending => w
  end.

(** *** stopRecording *)

Definition stopRecording (w : World) : World :=
  let w := setIsRecording false w in
  suspend TStopCapture (call CAudioStop w).

(** Resumption of [await AudioRecord.stop()], which is outside the [try];
    [now] is the value of [Date.now()]. *)
Definition stopRecording_captured (audio : Completion string) (now : Z) (w : World)
    : World :=
  match audio with
  | Throw e => escape e w
  | Normal audio =>
      let w := addDebugLog "Stopped recording" w in
      let fileName := "recording_" +:+ pretty now +:+ ".wav" in
      let filePath := ExternalDirectoryPath dev +:+ "/" +:+ fileName in
      suspend (TStopMove filePath) (call (CMoveFile audio filePath) w)
  end.

Definition stopRecording_catch (error : JsError) (w : World) : World :=
  addDebugLog ("Error saving audio file: " +:+ message error) w.

(** Resumption of [await RNFS.moveFile(audio, filePath)]. *)
Definition stopRecording_moved (filePath : string) (moved : Completion ()) (w : World)
    : World :=
  match moved with
  | Throw error => stopRecording_catch error w
  | Normal _ =>
      let w := setAudioFile (Some filePath) w in
      let w := addDebugLog ("Audio file saved: " +:+ filePath) w in
      suspend (TStopStat filePath) (call (CStat filePath) w)
  end.

(** Resumption of [await RNFS.stat(filePath)] with the [size] of the file;
    [processAudio(filePath)] is started and not awaited. *)
Definition stopRecording_statted (filePath : string) (size : Completion Z) (w : World)
    : World :=
  match size with
  | Throw error => stopRecording_catch error w
  | Normal size =>
      let w := addDebugLog ("Audio file size: " +:+ pretty size +:+ " bytes") w in
      processAudio filePath w
  end.

(** *** playAudio, stopAudio *)

(** [constructed] is the completion of [new Sound(audioFile, '', callback)]. *)
Definition playAudio (constructed : Completion ()) (w : World) : World :=
  match asset_present w with
  | Some path =>
      let w := call (CSoundNew path) w in
      match constructed with
      | Normal _ => suspend TSoundLoad (assign_sound (Some path) w)
      | Throw e => escape e w
      end
  | None => w
  end.

(** The load callback, called with [error]; [duration] and [played] are the
    completions of [sound.getDuration()] and of [sound.play(callback)]. *)
Definition playAudio_loaded
    (error : option JsError) (duration : Completion Q) (played : Completion ())
    (w : World) : World :=
  match error with
  | Some error => addDebugLog ("Failed to load the sound: " +:+ message error) w
  | None =>
      let w := call CSoundGetDuration w in
      match duration with
      | Throw e => escape e w
      | Normal d =>
          let w := setAudioDuration d w in
          let w := setIsPlaying true w in
          let w := call CSoundPlay w in
          match played with
          | Normal _ => suspend TSoundPlay w
          | Throw e => escape e w
          end
      end
  end.

(** The completion callback of [sound.play]. *)
Definition playAudio_finished (success : bool) (w : World) : World :=
  if success
  then setIsPlaying false (addDebugLog "Successfully finished playing" w)
  else addDebugLog "Playback failed due to audio decoding errors" w.

(** [stopped] is the completion of [sound.stop(callback)]. *)
Definition stopAudio (stopped : Completion ()) (w : World) : World :=
  match sound w with
  | Some _ =>
      let w := call CSoundStop w in
      match stopped with
      | Normal _ => suspend TSoundStop w
      | Throw e => escape e w
      end
  | None => w
  end.

Definition stopAudio_stopped (w : World) : World := setIsPlaying false w.

(** *** deleteAudio *)

Definition deleteAudio (w : World) : World :=
  match asset_present w with
  | Some path => suspend TDeleteUnlink (call (CUnlink path) w)
  | None => w
  end.

(** Resumption of [await RNFS.unlink(audioFile)]. *)
Definition deleteAudio_unlinked (unlinked : Completion ()) (w : World) : World :=
  match unlinked with
  | Normal _ =>
      let w := setAudioFile None w in
      let w := setTranscription (VStr "") w in
      let w := setAudioDuration 0%Q w in
      addDebugLog "Audio file deleted successfully" w
  | Throw error => addDebugLog ("Error deleting audio file: " +:+ message error) w
  end.

End Handlers.

(** ** The transition system *)

(** What a suspended handler or a registered callback is resumed with. *)
Inductive Reply :=
| Permission (granted : Completion string)
| Setup (init : Completion ())
| Exists (modelExists : Completion bool)
| Copied (copied : Completion ())
| Engine (engine : Completion JsVal)
| Captured (audio : Completion string) (now : Z)
| Moved (moved : Completion ())
| Statted (size : Completion Z)
| Settled
| Unlinked (unlinked : Completion ())
| Loaded (error : option JsError) (duration : Completion Q) (played : Completion ())
| Finished (success : bool)
| Stopped.

(** A press on one of the buttons, or the resumption of the [i]-th suspended
    task. *)
Inductive Event :=
| PressStart (started : Completion ())
| PressStop
| PressPlay (constructed : Completion ())
| PressStopPlaying (stopped : Completion ())
| PressDelete
| Resume (i : nat) (reply : Reply).

(** [audioFile && (...)] in the rendered tree. *)
Definition has_asset (w : World) : bool :=
  match asset_present w with
  | Some _ => true
  | None => false
  end.

Definition settles (s : Settlement) : bool :=
  match s with
  | Pending => false
  | _ => true
  end.

Section Transitions.
Context (rt : Runtime) (dev : Device).

(** The effect [useEffect(() => {...}, [])] runs on mount. *)
Definition mount (init : Completion ()) (w : World) : World :=
  initWhispers dev (setupAudioRecord dev init w).

(** The continuation of a task, when the reply is one the task waits for. *)
Definition continue (t : Task) (r : Reply) (w : World) : option World :=
  match t, r with
  | TPermission, Permission granted =>
      Some (requestMicrophonePermission_answered granted w)
  | TSetup, Setup init => Some (setupAudioRecord_resumed init w)
  | TInitExists, Exists modelExists => Some (initWhispers_checked dev modelExists w)
  | TInitCopy, Copied copied => Some (initWhispers_copied dev copied w)
  | TInitWhisper, Engine engine => Some (initWhispers_initialized rt engine w)
  | TStopCapture, Captured audio now => Some (stopRecording_captured dev audio now w)
  | TStopMove filePath, Moved moved => Some (stopRecording_moved filePath moved w)
  | TStopStat filePath, Statted size =>
      Some (stopRecording_statted rt dev filePath size w)
  | TProcTranscribe returned, Settled =>
      if settles (await rt returned)
      then Some (processAudio_transcribed rt returned w) else None
  | TProcPromise promise, Settled =>
      if settles (await rt promise)
      then Some (processAudio_resolved rt promise w) else None
  | TDeleteUnlink, Unlinked unlinked => Some (deleteAudio_unlinked unlinked w)
  | TSoundLoad, Loaded error duration played =>
      Some (playAudio_loaded error duration played w)
  | TSoundPlay, Finished success => Some (playAudio_finished success w)
  | TSoundStop, Stopped => Some (stopAudio_stopped w)
  | _, _ => None
  end.

(** One step of the screen. The buttons are the rendered ones: the recording
    button starts or stops according to [isRecording]; the play, stop and
    delete buttons exist only while [audioFile] is truthy. *)
Definition step (e : Event) (w : World) : option World :=
  match e with
  | PressStart started =>
      if isRecording w then None else Some (startRecording started w)
  | PressStop =>
      if isRecording w then Some (stopRecording w) else None
  | PressPlay constructed =>
      if has_asset w && negb (isPlaying w)
      then Some (playAudio constructed w) else None
  | PressStopPlaying stopped =>
      if has_asset w && isPlaying w
      then Some (stopAudio stopped w) else None
  | PressDelete =>
      if has_asset w then Some (deleteAudio w) else None
  | Resume i reply =>
      match pending w !! i with
      | Some t => continue t reply (resume i w)
      | None => None
      end
  end.

Fixpoint run (es : list Event) (w : World) : option World :=
  match es with
  | [] => Some w
  | e :: es' =>
      match step e w with
      | Some w' => run es' w'
      | None => None
      end
  end.

Inductive Reachable : World -> Prop :=
| reach_mount (init : Completion ()) : Reachable (mount init initial_world)
| reach_step (w w' : World) (e : Event) :
    Reachable w -> step e w = Some w' -> Reachable w'.

End Transitions.

(** ** Vocabulary of the specification *)

(** The field [v.k] as the specification speaks of it: [undefined] where [v]
    has no such field, also for [null] and [undefined] themselves. *)
Definition field (rt : Runtime) (v : JsVal) (k : string) : JsVal :=
  match get_prop rt v k with
  | Normal x => x
  | Throw _ => VUndefined
  end.

Definition nullish (v : JsVal) : bool :=
  match v with
  | VUndefined | VNull => true
  | _ => false
  end.

(** The two shapes the normalization looks for, in the order it looks. *)
Definition promise_case (rt : Runtime) (result : JsVal) : bool :=
  truthy result && typeof_object result && truthy (field rt result "promise").

Definition text_case (rt : Runtime) (result : JsVal) : bool :=
  truthy result && truthy (field rt result "text").

(** A stop-and-save or a transcription that has started and not finished. *)
Definition flow_task (t : Task) : bool :=
  match t with
  | TStopCapture | TStopMove _ | TStopStat _ | TProcTranscribe _ | TProcPromise _ => true
  | _ => false
  end.

Definition proc_task (t : Task) : bool :=
  match t with
  | TProcTranscribe _ | TProcPromise _ => true
  | _ => false
  end.

Definition in_flight (w : World) : bool := existsb flow_task (pending w).

(** A run in which the recording is never started while a stop-and-save or a
    transcription is in flight. *)
Fixpoint serialized (rt : Runtime) (dev : Device) (es : list Event) (w : World) : bool :=
  match es with
  | [] => true
  | e :: es' =>
      match e with
      | PressStart _ => negb (in_flight w)
      | _ => true
      end &&
      match step rt dev e w with
      | Some w' => serialized rt dev es' w'
      | None => true
      end
  end.

(** ** A concrete runtime and device, for running the model *)

Definition sample_to_string (v : JsVal) : string :=
  match v with
  | VUndefined => "undefined"
  | VNull => "null"
  | VBool b => show_bool b
  | VNum n => pretty n
  | VStr s => s
  | VArr _ => ""
  | VObj _ => "[object Object]"
  | VFun _ => "function () { [native code] }"
  | VPromise _ => "[object Promise]"
  end.

Definition sample_runtime : Runtime :=
  {| stringify := fun _ => Normal "{}";
     to_string := fun v => Normal (sample_to_string v);
     to_string_str := fun s => eq_refl;
     nullish_message := fun v k =>
       "Cannot read property '" +:+ k +:+ "' of " +:+ sample_to_string v;
     not_callable_message := fun _ k => "undefined is not a function";
     coerced_gt_zero := fun _ => Normal false;
     own_map_join := fun _ => Normal (VStr "");
     thenable_settles := fun _ => Pending |}.

(** An engine that answers in the shape whisper.rn documents: an object with a
    [stop] function and a [promise] of the transcript. *)
Definition sample_answer : JsVal :=
  VObj [("stop", VFun 0);
        ("promise", VPromise (Fulfilled
           (VObj [("result", VStr "hello");
                  ("segments", VArr [VObj [("text", VStr "hello")]])])))].

Definition sample_device : Device :=
  {| android := false;
     DocumentDirectoryPath := "/docs";
     MainBundlePath := "/bundle";
     ExternalDirectoryPath := "/ext";
     transcribe_returns := fun _ => Normal sample_answer |}.

Definition sample_engine : JsVal := VObj [("transcribe", VFun 2)].

(** Two concrete sessions on the sample device. In the first the model file
    check is still pending while a recording is made, saved, transcribed
    without an engine, and played. In the second the engine is initialized
    first and a recording is made, saved and handed to the engine. *)
Definition session_start : World := mount sample_device (Normal ()) initial_world.

Definition playing_session : list Event :=
  [PressStart (Normal ());
   PressStop;
   Resume 1 (Captured (Normal "/tmp/test.wav") 1700000000000%Z);
   Resume 1 (Moved (Normal ()));
   Resume 1 (Statted (Normal 32044%Z));
   PressPlay (Normal ());
   Resume 1 (Loaded None (Normal (25 # 2)) (Normal ()))].

Definition transcribing_session : list Event :=
  [Resume 0 (Exists (Normal true));
   Resume 0 (Engine (Normal sample_engine));
   PressStart (Normal ());
   PressStop;
   Resume 0 (Captured (Normal "/tmp/test.wav") 1700000000000%Z);
   Resume 0 (Moved (Normal ()));
   Resume 0 (Statted (Normal 32044%Z))].

Definition playing_world : World :=
  Eval vm_compute in
    default initial_world
      (run sample_runtime sample_device playing_session session_start).

Definition transcribing_world : World :=
  Eval vm_compute in
    default initial_world
      (run sample_runtime sample_device transcribing_session session_start).

(** A failure that was caught where it arose: nothing escaped the handler and
    [entry] is among the log entries the handler appended. *)
Definition caught (entry : string) (w w' : World) : Prop :=
  uncaught w' = uncaught w
  /\ exists before after, debugLogs w' = debugLogs w ++ before ++ entry :: after.

(** The transcript that [processAudio] shows for a failure. *)
Definition error_transcript (error : JsError) : JsVal :=
  VStr ("Error processing audio: " +:+ message error).

(** [w'] has the log of [w], possibly followed by more entries. *)
Definition log_extends (w w' : World) : Prop := debugLogs w `prefix_of` debugLogs w'.

(** What resuming task [t] in [w0] can do to the flags and to the suspended
    tasks: clear the processing flag; or suspend on a transcription step; or
    leave the processing flag alone and suspend on nothing or on a step that
    is no transcription step. The recording flag is never touched. *)
Definition effect_of (t : Task) (w0 w' : World) : Prop :=
  isRecording w' = isRecording w0
  /\ ((isProcessing w' = false /\ pending w' = pending w0)
      \/ (flow_task t = true
          /\ exists t', proc_task t' = true /\ pending w' = pending w0 ++ [t'])
      \/ (proc_task t = false
          /\ isProcessing w' = isProcessing w0
          /\ (pending w' = pending w0
              \/ exists t', proc_task t' = false
                            /\ (flow_task t' = true -> flow_task t = true)
                            /\ pending w' = pending w0 ++ [t']))).

(** While the processing flag is set a transcription step is suspended, and
    while a stop-and-save or a transcription is in flight the recording flag
    is clear. *)
Definition exclusive_inv (w : World) : Prop :=
  (isProcessing w = true -> existsb proc_task (pending w) = true)
  /\ (in_flight w = true -> isRecording w = false).

(** ** Vocabulary for whole sessions *)

Definition completes {A : Type} (c : Completion A) : bool :=
  match c with
  | Normal _ => true
  | Throw _ => false
  end.

(** The calls the event makes to the capture collaborator
    ([AudioRecord.init/start/stop]) and its synchronous calls to the playback
    collaborator ([new Sound], [getDuration], [play], [stop]) succeed. *)
Definition capture_and_playback_succeed (e : Event) : bool :=
  match e with
  | PressStart started => completes started
  | PressPlay constructed => completes constructed
  | PressStopPlaying stopped => completes stopped
  | Resume _ (Setup init) => completes init
  | Resume _ (Captured audio _) => completes audio
  | Resume _ (Loaded None duration played) => completes duration && completes played
  | _ => true
  end.

Fixpoint count_calls (P : Call -> bool) (l : list Call) : nat :=
  match l with
  | [] => 0
  | c :: l' => (if P c then 1 else 0) + count_calls P l'
  end.

Definition is_start (c : Call) : bool :=
  match c with CAudioStart => true | _ => false end.

Definition is_stop (c : Call) : bool :=
  match c with CAudioStop => true | _ => false end.

Definition is_init_whisper (c : Call) : bool :=
  match c with CInitWhisper _ => true | _ => false end.

Definition is_exists (c : Call) : bool :=
  match c with CExists _ => true | _ => false end.

(** The steps of [initWhispers] before [initWhisper] is called. *)
Definition before_init_task (t : Task) : bool :=
  match t with TInitExists | TInitCopy => true | _ => false end.

Fixpoint count_tasks (P : Task -> bool) (l : list Task) : nat :=
  match l with
  | [] => 0
  | t :: l' => (if P t then 1 else 0) + count_tasks P l'
  end.

(** The path [stopRecording] gives the recording stopped at time [now]. *)
Definition recording_path (dev : Device) (now : Z) : string :=
  ExternalDirectoryPath dev +:+ "/" +:+ ("recording_" +:+ pretty now +:+ ".wav").

(** The file path a call hands to the file store, the engine or the player. *)
Definition uses_file (c : Call) : option string :=
  match c with
  | CStat path | CUnlink path | CTranscribe path | CSoundNew path => Some path
  | _ => None
  end.

Definition moves_to (path : string) (c : Call) : bool :=
  match c with
  | CMoveFile _ dest => String.eqb dest path
  | _ => false
  end.

(** Every call that uses a file comes after a [moveFile] to that file. *)
Fixpoint saved_before_use (earlier later : list Call) : Prop :=
  match later with
  | [] => True
  | c :: rest =>
      match uses_file c with
      | Some path => existsb (moves_to path) earlier = true
      | None => True
      end
      /\ saved_before_use (earlier ++ [c]) rest
  end.

Definition is_permission_request (c : Call) : bool :=
  match c with CPermissionRequest => true | _ => false end.

Definition is_asset_copy (c : Call) : bool :=
  match c with CCopyFileAssets _ _ => true | _ => false end.

Definition is_bundle_copy (c : Call) : bool :=
  match c with CCopyFile _ _ => true | _ => false end.

Definition is_load_task (t : Task) : bool :=
  match t with TSoundLoad => true | _ => false end.

Definition awaits_engine (t : Task) : bool :=
  match t with TInitWhisper => true | _ => false end.

(** The recording a suspended [stopRecording] is saving. *)
Definition task_file (t : Task) : option string :=
  match t with
  | TStopMove filePath | TStopStat filePath => Some filePath
  | _ => None
  end.

(** [path], if there is one, is the path of a recording, and a [moveFile] to
    it is among [made]. *)
Definition file_known (dev : Device) (made : list Call) (path : option string) : Prop :=
  match path with
  | Some p =>
      (exists now, p = recording_path dev now) /\ existsb (moves_to p) made = true
  | None => True
  end.

(** The two awaits of the permission round trip. *)
Definition setup_task (t : Task) : bool :=
  match t with TPermission | TSetup => true | _ => false end.

Definition is_audio_init (c : Call) : bool :=
  match c with CAudioInit => true | _ => false end.

Definition is_model_copy (c : Call) : bool :=
  match c with CCopyFileAssets _ _ | CCopyFile _ _ => true | _ => false end.

(** A call about the model file names the bundled [ggml-base.bin] and the
    model path in the documents directory. *)
Definition model_call_ok (dev : Device) (c : Call) : Prop :=
  match c with
  | CExists path | CInitWhisper path => path = modelPath dev
  | CCopyFileAssets name dest => name = modelFileName /\ dest = modelPath dev
  | CCopyFile source dest =>
      source = MainBundlePath dev +:+ "/" +:+ modelFileName /\ dest = modelPath dev
  | _ => True
  end.

Fixpoint count_entries (entry : string) (l : list string) : nat :=
  match l with
  | [] => 0
  | e :: l' => (if String.eqb e entry then 1 else 0) + count_entries entry l'
  end.

(** [v], as a value of [segments], has a [length] greater than 0. *)
Definition positive_length (rt : Runtime) (v : JsVal) : Completion bool :=
  if truthy v then gt_zero rt (field rt v "length") else Normal false.

(** A device whose engine answers with a direct text. *)
Definition text_device : Device :=
  {| android := true;
     DocumentDirectoryPath := "/docs";
     MainBundlePath := "/bundle";
     ExternalDirectoryPath := "/ext";
     transcribe_returns := fun _ => Normal (VObj [("text", VStr "test")]) |}.

Definition ready_world : World := assign_Whisper sample_engine initial_world.

(** ** Properties *)

(** *** Transcript resets *)

(** C3, as the claim states it, fails: a transcript set before survives the
    start of a new recording. *)
Lemma startRecording_keeps_transcript :
  transcription
    (startRecording (Normal ()) (setTranscription (VStr "hello") initial_world))
  = VStr "hello"
  /\ transcription
       (startRecording (Normal ()) (setTranscription (VStr "hello") initial_world))
     <> VStr "".
Proof. split; [reflexivity | discriminate]. Qed.

(** C3 (amended): a successful deletion resets the transcript to the empty
    string, in whatever state the deletion resumes; starting a recording
    leaves the transcript as it was. *)
Theorem transcript_reset_on_delete_only (w : World) (started : Completion ()) :
  transcription (deleteAudio_unlinked (Normal ()) w) = VStr ""
  /\ transcription (deleteAudio_unlinked (Normal ()) (deleteAudio w)) = VStr ""
  /\ transcription (startRecording started w) = transcription w.
Proof.
  repeat split; try reflexivity.
  unfold startRecording. destruct started; reflexivity.
Qed.

(** *** Transcription without an engine *)

(** C4: while [Whisper] is null (or undefined, or any falsy value),
    [processAudio] calls no collaborator, suspends nothing, and ends with the
    transcript "Error processing audio: Whisper not initialized". *)
Theorem processAudio_without_engine
    (rt : Runtime) (dev : Device) (audio : string) (w : World) :
  truthy (Whisper w) = false ->
  let w' := processAudio rt dev audio w in
  transcription w' = VStr "Error processing audio: Whisper not initialized"
  /\ calls w' = calls w
  /\ pending w' = pending w
  /\ isProcessing w' = false
  /\ debugLogs w' =
       debugLogs w ++ ["Processing audio...";
                       "Error processing audio: Whisper not initialized"].
Proof.
  intros Hnull. unfold processAudio. cbn [Whisper setIsProcessing addDebugLog].
  rewrite Hnull. cbn. rewrite <- app_assoc. repeat split; reflexivity.
Qed.

Lemma processAudio_without_engine_witness :
  truthy (Whisper initial_world) = false
  /\ transcription (processAudio sample_runtime sample_device "/ext/a.wav" initial_world)
     = VStr "Error processing audio: Whisper not initialized".
Proof.
  split; [reflexivity|].
  apply (processAudio_without_engine sample_runtime sample_device "/ext/a.wav"
           initial_world).
  reflexivity.
Defined.

(** *** Deletion *)

(** C5: with an asset present, a failing [RNFS.unlink] leaves the asset
    reference, the transcript and the duration as they were, and appends the
    failure entry to the debug log. *)
Theorem deleteAudio_failure_keeps_state (w : World) (path : string) (error : JsError) :
  asset_present w = Some path ->
  let w' := deleteAudio_unlinked (Throw error) (deleteAudio w) in
  audioFile w' = audioFile w
  /\ transcription w' = transcription w
  /\ audioDuration w' = audioDuration w
  /\ calls w' = calls w ++ [CUnlink path]
  /\ debugLogs w' = debugLogs w ++ ["Error deleting audio file: " +:+ message error].
Proof.
  intros Hasset. unfold deleteAudio. rewrite Hasset. cbn. repeat split; reflexivity.
Qed.

Lemma deleteAudio_failure_keeps_state_witness :
  let w := setTranscription (VStr "test") (setAudioFile (Some "/ext/a.wav") initial_world) in
  asset_present w = Some "/ext/a.wav"
  /\ audioFile (deleteAudio_unlinked (Throw (mkError "ENOENT")) (deleteAudio w))
     = Some "/ext/a.wav".
Proof.
  split; [reflexivity|].
  apply (deleteAudio_failure_keeps_state
           (setTranscription (VStr "test")
              (setAudioFile (Some "/ext/a.wav") initial_world))
           "/ext/a.wav" (mkError "ENOENT")).
  reflexivity.
Defined.

(** C6: with an asset present, after [deleteAudio] succeeds the asset
    reference is cleared, the duration is exactly 0 and the transcript is
    exactly the empty string. *)
Theorem deleteAudio_success_clears (w : World) (path : string) :
  asset_present w = Some path ->
  let w' := deleteAudio_unlinked (Normal ()) (deleteAudio w) in
  audioFile w' = None
  /\ audioDuration w' = 0%Q
  /\ transcription w' = VStr ""
  /\ calls w' = calls w ++ [CUnlink path].
Proof.
  intros Hasset. unfold deleteAudio. rewrite Hasset. cbn. repeat split; reflexivity.
Qed.

Lemma deleteAudio_success_clears_witness :
  let w := setAudioDuration (25 # 2)
             (setTranscription (VStr "test")
                (setAudioFile (Some "/ext/a.wav") initial_world)) in
  asset_present w = Some "/ext/a.wav"
  /\ audioFile (deleteAudio_unlinked (Normal ()) (deleteAudio w)) = None.
Proof.
  split; [reflexivity|].
  apply (deleteAudio_success_clears
           (setAudioDuration (25 # 2)
              (setTranscription (VStr "test")
                 (setAudioFile (Some "/ext/a.wav") initial_world)))
           "/ext/a.wav").
  reflexivity.
Defined.

(** *** Normalization of the transcription result *)

Section Normalization.
Context (rt : Runtime).

Lemma get_prop_truthy (v : JsVal) (k : string) :
  truthy v = true -> get_prop rt v k = Normal (field rt v k).
Proof. destruct v; intros Ht; try discriminate Ht; reflexivity. Qed.

Lemma get_prop_not_nullish (v : JsVal) (k : string) :
  nullish v = false -> get_prop rt v k = Normal (field rt v k).
Proof. destruct v; intros Ht; try discriminate Ht; reflexivity. Qed.

Lemma promise_shaped_eq (result : JsVal) :
  promise_shaped rt result = Normal (promise_case rt result).
Proof.
  unfold promise_shaped, promise_case.
  destruct (truthy result) eqn:Ht; [|reflexivity].
  destruct (typeof_object result); [|reflexivity].
  cbn. rewrite get_prop_truthy by assumption. reflexivity.
Qed.

Lemma text_shaped_eq (result : JsVal) :
  text_shaped rt result = Normal (text_case rt result).
Proof.
  unfold text_shaped, text_case.
  destruct (truthy result) eqn:Ht; [|reflexivity].
  cbn. rewrite get_prop_truthy by assumption. reflexivity.
Qed.

Lemma falsy_has_no_segments (t : JsVal) :
  truthy t = false -> field rt t "segments" = VUndefined.
Proof. destruct t; cbn; try discriminate; try reflexivity. Qed.

Lemma resolved_text_eq (t : JsVal) :
  resolved_text rt t =
  if truthy t && truthy (field rt t "result") then Normal (field rt t "result")
  else let* positive := positive_length rt (field rt t "segments") in
       if positive then segments_text rt (field rt t "segments")
       else Throw (mkError "No transcription text in resolved result").
Proof.
  unfold resolved_text, positive_length.
  destruct (truthy t) eqn:Ht.
  - rewrite !(get_prop_truthy t) by assumption. cbn.
    destruct (truthy (field rt t "result")); [reflexivity|]. cbn.
    destruct (truthy (field rt t "segments")) eqn:Hs; [|reflexivity].
    rewrite (get_prop_truthy _ "length") by assumption. cbn [bind].
    destruct (gt_zero rt (field rt (field rt t "segments") "length")) as [[]|];
      reflexivity.
  - rewrite (falsy_has_no_segments t Ht). reflexivity.
Qed.

Lemma map_text_fields (items : list JsVal) :
  Forall (fun segment => nullish segment = false) items ->
  map_text rt items = Normal (map (fun segment => field rt segment "text") items).
Proof.
  induction 1 as [|segment rest Hseg _ IH]; [reflexivity|].
  cbn [map_text map]. rewrite get_prop_not_nullish by assumption.
  cbn. rewrite IH. reflexivity.
Qed.

Lemma segments_text_array (items : list JsVal) :
  Forall (fun segment => nullish segment = false) items ->
  segments_text rt (VArr items) =
  let* pieces := join_pieces rt (map (fun segment => field rt segment "text") items) in
  Normal (VStr (join_with " " pieces)).
Proof.
  intros Hall. unfold segments_text. rewrite map_text_fields by assumption.
  reflexivity.
Qed.

Lemma positive_length_array (items : list JsVal) :
  items <> [] -> positive_length rt (VArr items) = Normal true.
Proof. intros Hne. destruct items; [contradiction | reflexivity]. Qed.

Lemma join_pieces_strings (texts : list string) :
  join_pieces rt (map VStr texts) = Normal texts.
Proof.
  induction texts as [|s texts IH]; [reflexivity|].
  cbn [map join_pieces join_piece]. rewrite to_string_str. cbn [bind].
  rewrite IH. reflexivity.
Qed.

Lemma map_text_nullish (before after : list JsVal) (segment : JsVal) :
  Forall (fun segment => nullish segment = false) before ->
  nullish segment = true ->
  map_text rt (before ++ segment :: after) =
  Throw (mkError (nullish_message rt segment "text")).
Proof.
  intros Hbefore Hnull. induction Hbefore as [|s before Hs _ IH]; cbn [app map_text].
  - destruct segment; try discriminate Hnull; reflexivity.
  - rewrite get_prop_not_nullish by assumption. cbn [bind]. rewrite IH. reflexivity.
Qed.

Lemma has_segments_truthy (t : JsVal) :
  truthy (field rt t "segments") = true -> truthy t = true.
Proof. destruct t; cbn; try discriminate; reflexivity. Qed.

Lemma processAudio_branches_eq (result : JsVal) (w : World) :
  processAudio_branches rt result w =
  if promise_case rt result
  then suspend (TProcPromise (field rt result "promise")) w
  else if text_case rt result
       then setIsProcessing false (setTranscription (field rt result "text") w)
       else processAudio_catch (mkError "Unexpected transcription result format") w.
Proof.
  unfold processAudio_branches. rewrite promise_shaped_eq, text_shaped_eq.
  destruct (promise_case rt result) eqn:Hp.
  - assert (Ht : truthy result = true).
    { unfold promise_case in Hp. destruct (truthy result); [reflexivity | discriminate Hp]. }
    rewrite get_prop_truthy by assumption. reflexivity.
  - destruct (text_case rt result) eqn:Ht; [|reflexivity].
    assert (Htr : truthy result = true).
    { unfold text_case in Ht. destruct (truthy result); [reflexivity | discriminate Ht]. }
    rewrite get_prop_truthy by assumption. reflexivity.
Qed.

End Normalization.

(** P2 of the specification, run on the sample runtime. *)
Example P2_promise_result :
  transcription
    (processAudio_resolved sample_runtime
       (VPromise (Fulfilled (VObj [("result", VStr "hello")]))) initial_world)
  = VStr "hello".
Proof. reflexivity. Qed.

Example P2_promise_segments :
  transcription
    (processAudio_resolved sample_runtime
       (VPromise (Fulfilled
          (VObj [("segments", VArr [VObj [("text", VStr "a")];
                                    VObj [("text", VStr "b")]])])))
       initial_world)
  = VStr "a b".
Proof. reflexivity. Qed.

Example P2_direct_text :
  transcription
    (processAudio_result sample_runtime (VObj [("text", VStr "x")]) initial_world)
  = VStr "x".
Proof. reflexivity. Qed.

Example P2_empty_object :
  transcription (processAudio_result sample_runtime (VObj []) initial_world)
  = VStr "Error processing audio: Unexpected transcription result format".
Proof. reflexivity. Qed.

(** P2 for any runtime: segments whose texts are strings give those strings
    joined with single spaces. *)
Lemma segments_of_strings_joined
    (rt : Runtime) (texts : list string) (json : string) (w : World) :
  texts <> [] ->
  stringify rt (VObj [("segments", VArr (map (fun s => VObj [("text", VStr s)]) texts))])
  = Normal json ->
  transcription
    (processAudio_resolved rt
       (VPromise (Fulfilled
          (VObj [("segments", VArr (map (fun s => VObj [("text", VStr s)]) texts))])))
       w)
  = VStr (join_with " " texts).
Proof.
  intros Hne Hjson. unfold processAudio_resolved. cbn [await own_field typeof_function].
  cbn [String.eqb Ascii.eqb Bool.eqb own_field typeof_function].
  rewrite Hjson, resolved_text_eq.
  cbn [truthy field get_prop own_field andb String.eqb Ascii.eqb Bool.eqb].
  rewrite positive_length_array by (destruct texts; [contradiction | discriminate]).
  cbn [bind]. rewrite segments_text_array
    by (clear; induction texts; constructor; [reflexivity | assumption]).
  rewrite map_map.
  replace (map (fun x : string => field rt (VObj [("text", VStr x)]) "text") texts)
    with (map VStr texts) by (apply map_ext; intros; reflexivity).
  rewrite join_pieces_strings. reflexivity.
Qed.

(** C1, as the claim states it, fails: a result with a direct [text] field
    holding the empty string does not get that text as its transcript; the
    transcript is the unexpected-format error. *)
Lemma empty_direct_text_not_used :
  let result := VObj [("text", VStr "")] in
  get_prop sample_runtime result "text" = Normal (VStr "")
  /\ promise_case sample_runtime result = false
  /\ transcription (processAudio_result sample_runtime result initial_world)
     = VStr "Error processing audio: Unexpected transcription result format"
  /\ transcription (processAudio_result sample_runtime result initial_world)
     <> VStr "".
Proof. cbn. repeat split; try reflexivity. discriminate. Qed.

(** C1 (amended): the normalization tries the promise shape first. For a
    truthy object with a truthy [promise] field the handler suspends on that
    promise, and when it fulfils with [t] the transcript is [t.result] if that
    is truthy, or else the [text] fields of the elements of the non-empty
    [segments] array, converted to strings as [join] does, joined in order
    with single spaces (if an element is [null] or [undefined], reading its
    [text] fails and the transcript is the error transcript of that failure). Otherwise a truthy [text] field of the
    result is the transcript as it is, and any other value gets
    "Error processing audio: Unexpected transcription result format". All this
    holds when [JSON.stringify] of the value being logged does not throw; when
    it throws, the transcript is the error transcript of what it threw. *)
Theorem normalization_by_shape (rt : Runtime) (result : JsVal) (w : World) :
  (forall error : JsError,
     stringify rt result = Throw error ->
     transcription (processAudio_result rt result w) = error_transcript error)
  /\ (forall json : string,
        stringify rt result = Normal json ->
        (promise_case rt result = true ->
           let promise := field rt result "promise" in
           processAudio_result rt result w =
             suspend (TProcPromise promise)
               (addDebugLog ("Raw transcription result: " +:+ json) w)
           /\ forall (t : JsVal) (w' : World),
                await rt promise = Fulfilled t ->
                (forall error : JsError,
                   stringify rt t = Throw error ->
                   transcription (processAudio_resolved rt promise w') =
                     error_transcript error)
                /\ (forall json' : string,
                      stringify rt t = Normal json' ->
                      (truthy t && truthy (field rt t "result") = true ->
                         transcription (processAudio_resolved rt promise w') =
                           field rt t "result")
                      /\ (forall (items : list JsVal) (pieces : list string),
                            truthy (field rt t "result") = false ->
                            field rt t "segments" = VArr items ->
                            items <> [] ->
                            Forall (fun segment => nullish segment = false) items ->
                            join_pieces rt
                              (map (fun segment => field rt segment "text") items)
                            = Normal pieces ->
                            transcription (processAudio_resolved rt promise w') =
                              VStr (join_with " " pieces))
                      /\ (forall (before after : list JsVal) (segment : JsVal),
                            truthy (field rt t "result") = false ->
                            field rt t "segments" = VArr (before ++ segment :: after) ->
                            Forall (fun segment => nullish segment = false) before ->
                            nullish segment = true ->
                            transcription (processAudio_resolved rt promise w') =
                              error_transcript
                                (mkError (nullish_message rt segment "text")))))
        /\ (promise_case rt result = false ->
            text_case rt result = true ->
            transcription (processAudio_result rt result w) = field rt result "text")
        /\ (promise_case rt result = false ->
            text_case rt result = false ->
            transcription (processAudio_result rt result w) =
              VStr "Error processing audio: Unexpected transcription result format")).
Proof.
  unfold processAudio_result. split.
  - intros error Hjson. rewrite Hjson. reflexivity.
  - intros json Hjson. rewrite Hjson, processAudio_branches_eq. split; [|split].
    + intros Hp. rewrite Hp. cbn zeta. split; [reflexivity|].
      intros t w' Hawait. unfold processAudio_resolved. rewrite Hawait. split.
      * intros error Hjson'. rewrite Hjson'. reflexivity.
      * intros json' Hjson'. rewrite Hjson', resolved_text_eq. split; [|split].
        -- intros Hres. rewrite Hres. reflexivity.
        -- intros items pieces Hres Hsegs Hne Hall Hpieces.
           rewrite Hres, andb_false_r, Hsegs, positive_length_array by assumption.
           cbn [bind]. rewrite segments_text_array by assumption.
           rewrite Hpieces. reflexivity.
        -- intros before after segment Hres Hsegs Hbefore Hnull.
           rewrite Hres, andb_false_r, Hsegs, positive_length_array
             by (destruct before; discriminate).
           cbn [bind]. unfold segments_text.
           rewrite map_text_nullish by assumption. reflexivity.
    + intros Hp Ht. rewrite Hp, Ht. reflexivity.
    + intros Hp Ht. rewrite Hp, Ht. reflexivity.
Qed.

Lemma normalization_by_shape_witness :
  stringify sample_runtime sample_answer = Normal "{}"
  /\ promise_case sample_runtime sample_answer = true
  /\ processAudio_result sample_runtime sample_answer initial_world =
       suspend (TProcPromise (field sample_runtime sample_answer "promise"))
         (addDebugLog ("Raw transcription result: " +:+ "{}") initial_world).
Proof.
  split; [reflexivity|]. split; [reflexivity|].
  apply (proj1 (proj2 (normalization_by_shape sample_runtime sample_answer
                         initial_world) "{}" eq_refl)).
  reflexivity.
Defined.

(** C10, as the claim states it, fails: the awaited value below has an empty
    [.result] and no non-empty segments array (its [segments] is a string),
    yet the transcript is not the no-text error. The string has a positive
    [length], so the handler calls its missing [map] and the transcript
    carries the engine's TypeError message. *)
Lemma nonempty_string_segments_not_reported :
  let t := VObj [("result", VStr ""); ("segments", VStr "abc")] in
  truthy (field sample_runtime t "result") = false
  /\ (forall items, field sample_runtime t "segments" <> VArr items)
  /\ transcription
       (processAudio_resolved sample_runtime (VPromise (Fulfilled t)) initial_world)
     = VStr "Error processing audio: undefined is not a function"
  /\ transcription
       (processAudio_resolved sample_runtime (VPromise (Fulfilled t)) initial_world)
     <> VStr "Error processing audio: No transcription text in resolved result".
Proof. cbn. repeat split; try reflexivity; discriminate. Qed.

(** C10 (amended): when [JSON.stringify] of the awaited value [t] does not
    throw, its [.result] is the transcript exactly when it is truthy. With a
    falsy [.result] the handler goes on to the segments: a non-empty
    [segments] array gives its texts, converted to strings as [join] does,
    joined with single spaces; [segments] that is missing, falsy or has no
    [length] greater than 0 gives the transcript "Error processing audio: No
    transcription text in resolved result"; and [segments] that has a positive
    [length] but is neither an array nor an object (a non-empty string, say)
    gives the error transcript of the TypeError raised by calling its missing
    [map]. *)
Theorem falsy_result_falls_through
    (rt : Runtime) (promise t : JsVal) (json : string) (w : World) :
  await rt promise = Fulfilled t ->
  stringify rt t = Normal json ->
  let w' := processAudio_resolved rt promise w in
  (truthy t && truthy (field rt t "result") = true ->
     transcription w' = field rt t "result")
  /\ (truthy (field rt t "result") = false ->
      (positive_length rt (field rt t "segments") = Normal false ->
         transcription w' =
           VStr "Error processing audio: No transcription text in resolved result"
         /\ isProcessing w' = false
         /\ debugLogs w' =
              debugLogs w
              ++ ["Resolved transcription result: " +:+ json;
                  "Error processing audio: No transcription text in resolved result"])
      /\ (forall (items : list JsVal) (pieces : list string),
            field rt t "segments" = VArr items ->
            items <> [] ->
            Forall (fun segment => nullish segment = false) items ->
            join_pieces rt (map (fun segment => field rt segment "text") items)
            = Normal pieces ->
            transcription w' = VStr (join_with " " pieces))
      /\ (positive_length rt (field rt t "segments") = Normal true ->
          (forall items, field rt t "segments" <> VArr items) ->
          (forall fields, field rt t "segments" <> VObj fields) ->
          transcription w' =
            error_transcript
              (mkError (not_callable_message rt (field rt t "segments") "map")))).
Proof.
  intros Hawait Hjson w'. subst w'. unfold processAudio_resolved.
  rewrite Hawait, Hjson, resolved_text_eq. split.
  - intros Hres. rewrite Hres. reflexivity.
  - intros Hres. rewrite Hres, andb_false_r. split; [|split].
    + intros Hnone. rewrite Hnone. cbn. rewrite <- app_assoc.
      repeat split; reflexivity.
    + intros items pieces Hsegs Hne Hall Hpieces.
      rewrite Hsegs, positive_length_array by assumption.
      cbn [bind]. rewrite segments_text_array by assumption.
      rewrite Hpieces. reflexivity.
    + intros Hpos Hnot_array Hnot_object. rewrite Hpos. cbn [bind].
      destruct (field rt t "segments") as [| | | | |items|fields| |] eqn:Hsegs;
        try reflexivity.
      * exfalso. exact (Hnot_array items eq_refl).
      * exfalso. exact (Hnot_object fields eq_refl).
Qed.

Lemma falsy_result_falls_through_witness :
  let t := VObj [("result", VStr ""); ("segments", VArr [VObj [("text", VStr "a")]])] in
  stringify sample_runtime t = Normal "{}"
  /\ truthy (field sample_runtime t "result") = false
  /\ transcription
       (processAudio_resolved sample_runtime (VPromise (Fulfilled t)) initial_world)
     = VStr "a".
Proof.
  split; [reflexivity|]. split; [reflexivity|].
  apply (proj1 (proj2 (proj2 (falsy_result_falls_through sample_runtime
                                (VPromise (Fulfilled
                                   (VObj [("result", VStr "");
                                          ("segments",
                                           VArr [VObj [("text", VStr "a")]])])))
                                (VObj [("result", VStr "");
                                       ("segments", VArr [VObj [("text", VStr "a")]])])
                                "{}" initial_world eq_refl eq_refl)
                         eq_refl))
           [VObj [("text", VStr "a")]] ["a"] eq_refl).
  - discriminate.
  - repeat constructor.
  - reflexivity.
Defined.

(** With an empty [.result] and [segments] missing altogether the transcript
    is the no-text error. *)
Example empty_result_without_segments :
  transcription
    (processAudio_resolved sample_runtime
       (VPromise (Fulfilled (VObj [("result", VStr "")]))) initial_world)
  = VStr "Error processing audio: No transcription text in resolved result".
Proof. reflexivity. Qed.

(** *** Engine initialization *)

(** When [initWhisper] itself fails, [Whisper] keeps the value it had. *)
Lemma init_rejection_keeps_Whisper (rt : Runtime) (error : JsError) (w : World) :
  Whisper (initWhispers_initialized rt (Throw error) w) = Whisper w.
Proof. reflexivity. Qed.

(** C2 fails on the code: when [initWhisper] resolves to an object without a
    [transcribe] function, the failure is logged but [Whisper] already holds
    that object. A later [processAudio] passes the [!Whisper] guard and fails
    on the call instead, so its transcript carries the engine's TypeError
    message, not "Whisper not initialized". *)
Theorem engine_without_transcribe_is_kept
    (rt : Runtime) (dev : Device) (audio : string) (w : World) :
  let w1 := initWhispers_initialized rt (Normal (VObj [])) w in
  let w2 := processAudio rt dev audio w1 in
  Whisper w1 = VObj []
  /\ truthy (Whisper w1) = true
  /\ debugLogs w1 =
       debugLogs w ++ ["Failed to initialize Whisper: Whisper not properly initialized"]
  /\ transcription w2 =
       VStr ("Error processing audio: " +:+ not_callable_message rt (VObj []) "transcribe")
  /\ calls w2 = calls w.
Proof. cbn. repeat split; reflexivity. Qed.

Example engine_without_transcribe_sample :
  let w1 := initWhispers_initialized sample_runtime (Normal (VObj [])) initial_world in
  transcription (processAudio sample_runtime sample_device "/ext/a.wav" w1)
  = VStr "Error processing audio: undefined is not a function"
  /\ transcription (processAudio sample_runtime sample_device "/ext/a.wav" w1)
     <> VStr "Error processing audio: Whisper not initialized".
Proof. split; [reflexivity | discriminate]. Qed.

(** *** The debug log *)

Section DebugLog.
Context (rt : Runtime) (dev : Device).

#[local] Instance log_extends_preorder : PreOrder log_extends.
Proof.
  split.
  - intros w. unfold log_extends. reflexivity.
  - intros w1 w2 w3 H12 H23. unfold log_extends in *. etrans; eassumption.
Qed.

Ltac prefix_of_appended :=
  first [reflexivity | apply prefix_app_r; prefix_of_appended].

(** Closes a goal [log_extends w (f w)] once [f] is unfolded: every branch
    appends entries to [debugLogs w] and touches nothing else of the log. *)
Ltac log_grows :=
  unfold log_extends, processAudio_settle, processAudio_catch, initWhispers_catch,
    initWhispers_init, stopRecording_catch;
  repeat match goal with
         | |- context [match ?c with _ => _ end] => destruct c eqn:?
         end;
  cbn [debugLogs addDebugLog setIsRecording setTranscription setIsProcessing
       setAudioFile setIsPlaying setAudioDuration assign_Whisper assign_sound
       call suspend resume escape processAudio_catch processAudio_settle
       initWhispers_catch initWhispers_init stopRecording_catch];
  prefix_of_appended.

Lemma mount_log (init : Completion ()) (w : World) : log_extends w (mount dev init w).
Proof.
  unfold mount, initWhispers, setupAudioRecord, setupAudioRecord_init. log_grows.
Qed.

Lemma call_transcribe_log (audio : string) (w : World) :
  debugLogs (snd (call_transcribe rt dev audio w)) = debugLogs w.
Proof.
  unfold call_transcribe.
  destruct (get_prop rt (Whisper w) "transcribe") as [transcribe|]; [|reflexivity].
  destruct (typeof_function transcribe); reflexivity.
Qed.

Lemma processAudio_log (audio : string) (w : World) :
  log_extends w (processAudio rt dev audio w).
Proof.
  unfold processAudio.
  destruct (negb (truthy _)); [log_grows|].
  match goal with
  | |- context [call_transcribe rt dev audio ?w0] =>
      pose proof (call_transcribe_log audio w0) as Hlog;
      destruct (call_transcribe rt dev audio w0) as [[returned|error] w1]
  end; cbn [snd] in Hlog; unfold log_extends;
    cbn [debugLogs suspend processAudio_catch addDebugLog setTranscription
         setIsProcessing] in *;
    rewrite Hlog; prefix_of_appended.
Qed.

Lemma processAudio_result_log (result : JsVal) (w : World) :
  log_extends w (processAudio_result rt result w).
Proof. unfold processAudio_result, processAudio_branches. log_grows. Qed.

Lemma continue_log (t : Task) (r : Reply) (w w' : World) :
  continue rt dev t r w = Some w' -> log_extends w w'.
Proof.
  destruct t, r; cbn [continue]; intros Hc; try discriminate Hc.
  - injection Hc as <-. unfold requestMicrophonePermission_answered. log_grows.
  - injection Hc as <-. unfold setupAudioRecord_resumed, setupAudioRecord_init. log_grows.
  - injection Hc as <-. unfold initWhispers_checked. log_grows.
  - injection Hc as <-. unfold initWhispers_copied. log_grows.
  - injection Hc as <-. unfold initWhispers_initialized. log_grows.
  - injection Hc as <-. unfold stopRecording_captured. log_grows.
  - injection Hc as <-. unfold stopRecording_moved. log_grows.
  - injection Hc as <-. unfold stopRecording_statted.
    destruct size; [|log_grows].
    etrans; [|apply processAudio_log]. log_grows.
  - destruct (settles (await rt returned)); [|discriminate Hc].
    injection Hc as <-. unfold processAudio_transcribed.
    destruct (await rt returned); [apply processAudio_result_log | log_grows | reflexivity].
  - destruct (settles (await rt promise)); [|discriminate Hc].
    injection Hc as <-. unfold processAudio_resolved. log_grows.
  - injection Hc as <-. unfold deleteAudio_unlinked. log_grows.
  - injection Hc as <-. unfold playAudio_loaded. log_grows.
  - injection Hc as <-. unfold playAudio_finished. log_grows.
  - injection Hc as <-. unfold stopAudio_stopped. log_grows.
Qed.

Lemma step_log (e : Event) (w w' : World) :
  step rt dev e w = Some w' -> log_extends w w'.
Proof.
  destruct e; cbn [step]; intros Hs.
  - destruct (isRecording w); [discriminate Hs|]. injection Hs as <-.
    unfold startRecording. log_grows.
  - destruct (isRecording w); [|discriminate Hs]. injection Hs as <-.
    unfold stopRecording. log_grows.
  - destruct (has_asset w && negb (isPlaying w)); [|discriminate Hs].
    injection Hs as <-. unfold playAudio. log_grows.
  - destruct (has_asset w && isPlaying w); [|discriminate Hs].
    injection Hs as <-. unfold stopAudio. log_grows.
  - destruct (has_asset w); [|discriminate Hs].
    injection Hs as <-. unfold deleteAudio. log_grows.
  - destruct (pending w !! i) as [t|]; [|discriminate Hs].
    apply continue_log in Hs. exact Hs.
Qed.

Lemma run_log (es : list Event) (w w' : World) :
  run rt dev es w = Some w' -> log_extends w w'.
Proof.
  revert w. induction es as [|e es IH]; intros w; cbn [run].
  - intros [= <-]. reflexivity.
  - destruct (step rt dev e w) as [w1|] eqn:Hstep; [|discriminate].
    intros Hrun. etrans; [eapply step_log; eassumption | apply IH; assumption].
Qed.

Lemma run_app (es1 es2 : list Event) (w w2 : World) :
  run rt dev (es1 ++ es2) w = Some w2 ->
  exists w1, run rt dev es1 w = Some w1 /\ run rt dev es2 w1 = Some w2.
Proof.
  revert w. induction es1 as [|e es1 IH]; intros w; cbn [run app].
  - intros Hrun. exists w. split; [reflexivity | assumption].
  - destruct (step rt dev e w) as [w'|]; [apply IH | discriminate].
Qed.

Lemma processAudio_logs (audio : string) (w : World) :
  exists rest,
    debugLogs (processAudio rt dev audio w) = debugLogs w ++ "Processing audio..." :: rest.
Proof.
  assert (Hext : log_extends (addDebugLog "Processing audio..." (setIsProcessing true w))
                   (processAudio rt dev audio w)).
  { unfold processAudio.
    destruct (negb (truthy _)); [log_grows|].
    match goal with
    | |- context [call_transcribe rt dev audio ?w0] =>
        pose proof (call_transcribe_log audio w0) as Hlog;
        destruct (call_transcribe rt dev audio w0) as [[returned|error] w1]
    end; cbn [snd] in Hlog; unfold log_extends;
      cbn [debugLogs suspend processAudio_catch addDebugLog setTranscription
           setIsProcessing] in *;
      rewrite Hlog; prefix_of_appended. }
  destruct Hext as [rest Hrest]. exists rest.
  rewrite Hrest. cbn [debugLogs addDebugLog setIsProcessing].
  rewrite <- app_assoc. reflexivity.
Qed.

(** C7 (amended): the debug log is append-only and ordered. Every step of the
    screen, and so every run, keeps the log it found as a prefix of the log it
    leaves, and the entries of an earlier part of a run precede those of a
    later part. Mounting, [startRecording] (when the capture starts),
    [processAudio] and the completion of [deleteAudio] each append at least
    one entry; [stopAudio] appends none. *)
Theorem debug_log_append_only :
  (forall (e : Event) (w w' : World),
     step rt dev e w = Some w' -> debugLogs w `prefix_of` debugLogs w')
  /\ (forall (es1 es2 : list Event) (w w2 : World),
        run rt dev (es1 ++ es2) w = Some w2 ->
        exists w1, run rt dev es1 w = Some w1
                   /\ debugLogs w `prefix_of` debugLogs w1
                   /\ debugLogs w1 `prefix_of` debugLogs w2)
  /\ (forall (init : Completion ()) (w : World),
        length (debugLogs w) < length (debugLogs (mount dev init w)))
  /\ (forall w : World,
        debugLogs (startRecording (Normal ()) w) = debugLogs w ++ ["Started recording"])
  /\ (forall (audio : string) (w : World),
        length (debugLogs w) < length (debugLogs (processAudio rt dev audio w)))
  /\ (forall (unlinked : Completion ()) (w : World),
        length (debugLogs (deleteAudio_unlinked unlinked w)) = S (length (debugLogs w)))
  /\ (forall (stopped : Completion ()) (w : World),
        debugLogs (stopAudio_stopped (stopAudio stopped w)) = debugLogs w).
Proof.
  repeat apply conj.
  - apply step_log.
  - intros es1 es2 w w2 Hrun. apply run_app in Hrun as (w1 & H1 & H2).
    exists w1. split; [assumption|]. split; eapply run_log; eassumption.
  - intros init w. unfold mount, initWhispers, setupAudioRecord, setupAudioRecord_init.
    destruct (android dev); [|destruct init];
      cbn; rewrite ?length_app; cbn; lia.
  - reflexivity.
  - intros audio w. destruct (processAudio_logs audio w) as [rest ->].
    rewrite length_app. cbn. lia.
  - intros [[]|error] w; cbn; rewrite length_app; cbn; lia.
  - intros stopped w. unfold stopAudio.
    destruct (sound w); [destruct stopped|]; reflexivity.
Qed.

End DebugLog.

Lemma debug_log_append_only_witness :
  debugLogs session_start
  `prefix_of`
  debugLogs (startRecording (Normal ()) session_start).
Proof.
  apply (proj1 (debug_log_append_only sample_runtime sample_device)
           (PressStart (Normal ())) session_start).
  reflexivity.
Defined.

(** C7, as the claim states it, fails: stopping the playback is an operation
    that appends no entry. After the playing session, pressing the stop button
    and the arrival of the stop callback leave the log exactly as it was. *)
Lemma stopAudio_appends_nothing :
  run sample_runtime sample_device playing_session session_start = Some playing_world
  /\ isPlaying playing_world = true
  /\ match run sample_runtime sample_device
             [PressStopPlaying (Normal ()); Resume 2 Stopped] playing_world with
     | Some w' =>
         isPlaying w' = false
         /\ debugLogs w' = debugLogs playing_world
         /\ ~ length (debugLogs playing_world) + 1 <= length (debugLogs w')
     | None => False
     end.
Proof.
  split; [vm_compute; reflexivity|]. split; [reflexivity|].
  vm_compute. repeat split. lia.
Qed.

(** *** Recording and processing flags *)

Section Exclusivity.
Context (rt : Runtime) (dev : Device).

Lemma existsb_delete_sub (P : Task -> bool) (i : nat) (l : list Task) :
  existsb P (delete i l) = true -> existsb P l = true.
Proof.
  revert i. induction l as [|t l IH]; intros [|i]; cbn; try discriminate.
  - intros ->. apply orb_true_r.
  - destruct (P t); [reflexivity|]. cbn. apply IH.
Qed.

Lemma existsb_delete_other (P : Task -> bool) (i : nat) (l : list Task) (t : Task) :
  l !! i = Some t -> P t = false -> existsb P (delete i l) = existsb P l.
Proof.
  revert i. induction l as [|t' l IH]; intros [|i]; cbn; try discriminate.
  - intros [= ->] ->. reflexivity.
  - intros Hl Ht. f_equal. eapply IH; eassumption.
Qed.

Lemma existsb_lookup (P : Task -> bool) (i : nat) (l : list Task) (t : Task) :
  l !! i = Some t -> P t = true -> existsb P l = true.
Proof.
  revert i. induction l as [|t' l IH]; intros [|i]; cbn; try discriminate.
  - intros [= ->] ->. reflexivity.
  - intros Hl Ht. apply orb_true_iff. right. eapply IH; eassumption.
Qed.

Lemma proc_task_flow (t : Task) : proc_task t = true -> flow_task t = true.
Proof. destruct t; intros H; try discriminate H; reflexivity. Qed.

Lemma processAudio_effect (t : Task) (audio : string) (w : World) :
  flow_task t = true ->
  isRecording (processAudio rt dev audio w) = isRecording w
  /\ ((isProcessing (processAudio rt dev audio w) = false
       /\ pending (processAudio rt dev audio w) = pending w)
      \/ (flow_task t = true
          /\ exists t', proc_task t' = true
                        /\ pending (processAudio rt dev audio w) = pending w ++ [t'])).
Proof.
  intros Ht. unfold processAudio, call_transcribe.
  cbn [Whisper addDebugLog setIsProcessing].
  destruct (negb (truthy (Whisper w))).
  - split; [reflexivity|]. left. split; reflexivity.
  - destruct (get_prop rt (Whisper w) "transcribe") as [transcribe|].
    + destruct (typeof_function transcribe).
      * destruct (transcribe_returns dev audio) as [returned|error].
        -- split; [reflexivity|]. right. split; [assumption|].
           exists (TProcTranscribe returned). split; reflexivity.
        -- split; [reflexivity|]. left. split; reflexivity.
      * split; [reflexivity|]. left. split; reflexivity.
    + split; [reflexivity|]. left. split; reflexivity.
Qed.

Ltac split_branches :=
  repeat match goal with
         | |- context [match ?c with _ => _ end] => destruct c eqn:?
         end.

Ltac pick_effect :=
  split; [reflexivity|];
  first
    [ left; split; reflexivity
    | right; left; split; [reflexivity|];
      eexists; split; [|reflexivity]; reflexivity
    | right; right; split; [reflexivity|]; split; [reflexivity|];
      first
        [ left; reflexivity
        | right; eexists; (split; [|split; [|reflexivity]]);
          [ reflexivity
          | first [intros _; reflexivity | intros Hflow; discriminate Hflow] ] ] ].

Lemma continue_effect (t : Task) (r : Reply) (w0 w' : World) :
  continue rt dev t r w0 = Some w' -> effect_of t w0 w'.
Proof.
  unfold effect_of.
  destruct t, r; cbn [continue]; intros Hc; try discriminate Hc.
  - injection Hc as <-. unfold requestMicrophonePermission_answered.
    split_branches; pick_effect.
  - injection Hc as <-. unfold setupAudioRecord_resumed, setupAudioRecord_init.
    split_branches; pick_effect.
  - injection Hc as <-. unfold initWhispers_checked, initWhispers_init, initWhispers_catch.
    split_branches; pick_effect.
  - injection Hc as <-. unfold initWhispers_copied, initWhispers_init, initWhispers_catch.
    split_branches; pick_effect.
  - injection Hc as <-. unfold initWhispers_initialized, initWhispers_catch.
    split_branches; pick_effect.
  - injection Hc as <-. unfold stopRecording_captured.
    split_branches; pick_effect.
  - injection Hc as <-. unfold stopRecording_moved, stopRecording_catch.
    split_branches; pick_effect.
  - injection Hc as <-. unfold stopRecording_statted, stopRecording_catch.
    destruct size as [size|error]; [|pick_effect].
    destruct (processAudio_effect (TStopStat filePath) filePath
                (addDebugLog ("Audio file size: " +:+ pretty size +:+ " bytes") w0)
                eq_refl) as [Hrec [Hdone | Hsusp]].
    + split; [exact Hrec|]. left. exact Hdone.
    + split; [exact Hrec|]. right. left. exact Hsusp.
  - destruct (settles (await rt returned)) eqn:Hsettles; [|discriminate Hc].
    injection Hc as <-. unfold processAudio_transcribed.
    destruct (await rt returned) as [result|error|]; [| |discriminate Hsettles].
    + unfold processAudio_result, processAudio_branches, processAudio_settle,
        processAudio_catch.
      split_branches; pick_effect.
    + unfold processAudio_catch. pick_effect.
  - destruct (settles (await rt promise)) eqn:Hsettles; [|discriminate Hc].
    injection Hc as <-. unfold processAudio_resolved.
    destruct (await rt promise) as [result|error|]; [| |discriminate Hsettles].
    + unfold processAudio_settle, processAudio_catch.
      split_branches; pick_effect.
    + unfold processAudio_catch. pick_effect.
  - injection Hc as <-. unfold deleteAudio_unlinked. split_branches; pick_effect.
  - injection Hc as <-. unfold playAudio_loaded. split_branches; pick_effect.
  - injection Hc as <-. unfold playAudio_finished. split_branches; pick_effect.
  - injection Hc as <-. unfold stopAudio_stopped. pick_effect.
Qed.

Lemma exclusive_inv_flags (w : World) :
  exclusive_inv w -> isRecording w && isProcessing w = false.
Proof.
  intros [Hproc Hflow].
  destruct (isProcessing w) eqn:Hp; [|apply andb_false_r].
  rewrite Hflow; [reflexivity|].
  specialize (Hproc eq_refl). unfold in_flight.
  apply existsb_exists in Hproc as (t & Hin & Ht).
  apply existsb_exists. exists t. split; [assumption | apply proc_task_flow, Ht].
Qed.

Lemma mount_inv (init : Completion ()) : exclusive_inv (mount dev init initial_world).
Proof.
  unfold exclusive_inv, in_flight, mount, initWhispers, setupAudioRecord,
    setupAudioRecord_init.
  destruct (android dev); [|destruct init]; cbn; split; intros H; discriminate H.
Qed.

Lemma press_inv (w w' : World) (extra : list Task) :
  exclusive_inv w ->
  isProcessing w' = isProcessing w ->
  pending w' = pending w ++ extra ->
  isRecording w' = false \/
    (isRecording w' = isRecording w /\ existsb flow_task extra = false) ->
  exclusive_inv w'.
Proof.
  intros [Hproc Hflow] Hp Hpend Hrec. unfold exclusive_inv, in_flight.
  rewrite Hp, Hpend, !existsb_app. split.
  - intros H. rewrite Hproc by assumption. reflexivity.
  - destruct Hrec as [Hrec | [Hrec Hextra]]; [intros _; exact Hrec|].
    rewrite Hextra, orb_false_r, Hrec. exact Hflow.
Qed.

Lemma resume_inv (i : nat) (t : Task) (r : Reply) (w w' : World) :
  exclusive_inv w ->
  pending w !! i = Some t ->
  continue rt dev t r (resume i w) = Some w' ->
  exclusive_inv w'.
Proof.
  intros [Hproc Hflow] Hi Hc.
  apply continue_effect in Hc as [Hrec Heff].
  cbn [isRecording isProcessing pending resume] in Hrec, Heff.
  unfold exclusive_inv, in_flight. rewrite Hrec.
  destruct Heff as [[Hp Hpend] | [[Ht (t' & Ht' & Hpend)] | (Ht & Hp & Hpend)]].
  - rewrite Hp, Hpend. split; [intros H; discriminate H|].
    intros H. apply Hflow. eapply existsb_delete_sub, H.
  - rewrite Hpend, !existsb_app. cbn. rewrite Ht'. split.
    + intros _. apply orb_true_iff. right. reflexivity.
    + intros _. apply Hflow. eapply existsb_lookup; eassumption.
  - rewrite Hp. split.
    + intros H. specialize (Hproc H).
      rewrite <- (existsb_delete_other proc_task i _ t Hi Ht) in Hproc.
      destruct Hpend as [-> | (t' & _ & _ & ->)]; [exact Hproc|].
      rewrite existsb_app, Hproc. reflexivity.
    + destruct Hpend as [-> | (t' & _ & Himp & ->)].
      * intros H. apply Hflow. eapply existsb_delete_sub, H.
      * rewrite existsb_app. cbn. rewrite orb_false_r. intros H.
        apply orb_true_iff in H as [H | H].
        -- apply Hflow. eapply existsb_delete_sub, H.
        -- apply Hflow. eapply existsb_lookup; [eassumption | apply Himp, H].
Qed.

Lemma step_inv (e : Event) (w w' : World) :
  exclusive_inv w ->
  match e with
  | PressStart _ => in_flight w = false
  | _ => True
  end ->
  step rt dev e w = Some w' ->
  exclusive_inv w'.
Proof.
  intros Hinv Hser. destruct e; cbn [step]; intros Hs.
  - destruct (isRecording w); [discriminate Hs|]. injection Hs as <-.
    destruct Hinv as [Hproc _]. unfold exclusive_inv, in_flight, startRecording.
    destruct started; cbn; (split; [exact Hproc|]);
      unfold in_flight in Hser; rewrite Hser; intros H; discriminate H.
  - destruct (isRecording w); [|discriminate Hs]. injection Hs as <-.
    apply (press_inv w _ [TStopCapture] Hinv); [reflexivity | reflexivity|].
    left. reflexivity.
  - destruct (has_asset w && negb (isPlaying w)); [|discriminate Hs].
    injection Hs as <-. unfold playAudio.
    destruct (asset_present w); [destruct constructed|].
    + apply (press_inv w _ [TSoundLoad] Hinv); try reflexivity. right. split; reflexivity.
    + apply (press_inv w _ [] Hinv); try reflexivity.
      * cbn. rewrite app_nil_r. reflexivity.
      * right. split; reflexivity.
    + exact Hinv.
  - destruct (has_asset w && isPlaying w); [|discriminate Hs].
    injection Hs as <-. unfold stopAudio.
    destruct (sound w); [destruct stopped|].
    + apply (press_inv w _ [TSoundStop] Hinv); try reflexivity. right. split; reflexivity.
    + apply (press_inv w _ [] Hinv); try reflexivity.
      * cbn. rewrite app_nil_r. reflexivity.
      * right. split; reflexivity.
    + exact Hinv.
  - destruct (has_asset w); [|discriminate Hs]. injection Hs as <-.
    unfold deleteAudio. destruct (asset_present w); [|exact Hinv].
    apply (press_inv w _ [TDeleteUnlink] Hinv); try reflexivity. right. split; reflexivity.
  - destruct (pending w !! i) as [t|] eqn:Hi; [|discriminate Hs].
    eapply resume_inv; eassumption.
Qed.

Lemma run_inv (es : list Event) (w w' : World) :
  exclusive_inv w ->
  serialized rt dev es w = true ->
  run rt dev es w = Some w' ->
  exclusive_inv w'.
Proof.
  revert w. induction es as [|e es IH]; intros w Hinv Hser; cbn [run].
  - intros [= <-]. exact Hinv.
  - cbn [serialized] in Hser. apply andb_true_iff in Hser as [Hnow Hlater].
    destruct (step rt dev e w) as [w1|] eqn:Hstep; [|discriminate].
    apply IH; [|exact Hlater].
    eapply step_inv; [exact Hinv | | exact Hstep].
    destruct e; try exact I. apply negb_true_iff, Hnow.
Qed.

Lemma run_reachable (es : list Event) (w w' : World) :
  Reachable rt dev w -> run rt dev es w = Some w' -> Reachable rt dev w'.
Proof.
  revert w. induction es as [|e es IH]; intros w Hreach; cbn [run].
  - intros [= <-]. exact Hreach.
  - destruct (step rt dev e w) as [w1|] eqn:Hstep; [|discriminate].
    apply IH. eapply reach_step; eassumption.
Qed.

(** C8 (amended): in every state reached from the mounted screen by a run in
    which the recording button is never pressed to start while a stop-and-save
    or a transcription is still in flight, the recording flag and the
    processing flag are not both true. *)
Theorem flags_exclusive_when_serialized
    (init : Completion ()) (es : list Event) (w : World) :
  serialized rt dev es (mount dev init initial_world) = true ->
  run rt dev es (mount dev init initial_world) = Some w ->
  isRecording w && isProcessing w = false.
Proof.
  intros Hser Hrun. apply exclusive_inv_flags.
  eapply run_inv; [apply mount_inv | exact Hser | exact Hrun].
Qed.

End Exclusivity.

Lemma flags_exclusive_when_serialized_witness :
  serialized sample_runtime sample_device transcribing_session session_start = true
  /\ run sample_runtime sample_device transcribing_session session_start
     = Some transcribing_world
  /\ isProcessing transcribing_world = true
  /\ isRecording transcribing_world && isProcessing transcribing_world = false.
Proof.
  split; [vm_compute; reflexivity|].
  split; [vm_compute; reflexivity|].
  split; [reflexivity|].
  apply (flags_exclusive_when_serialized sample_runtime sample_device (Normal ())
           transcribing_session transcribing_world).
  - vm_compute. reflexivity.
  - vm_compute. reflexivity.
Defined.

(** C8, as the claim states it, fails: once the saved recording has been
    handed to the engine and the transcription is awaited, the recording
    button reads "Start Recording" again; pressing it makes both flags true. *)
Lemma recording_while_processing :
  exists w : World,
    Reachable sample_runtime sample_device w
    /\ run sample_runtime sample_device
         (transcribing_session ++ [PressStart (Normal ())]) session_start = Some w
    /\ isRecording w = true
    /\ isProcessing w = true.
Proof.
  destruct (run sample_runtime sample_device
              (transcribing_session ++ [PressStart (Normal ())]) session_start)
    as [w|] eqn:Hrun; [|vm_compute in Hrun; discriminate Hrun].
  exists w. split.
  - eapply run_reachable; [|exact Hrun]. apply reach_mount.
  - split; [reflexivity|].
    vm_compute in Hrun. injection Hrun as <-. split; reflexivity.
Qed.

(** *** Failures of the collaborators *)

Section Failures.
Context (rt : Runtime) (dev : Device).

Ltac entry_appended :=
  split; [reflexivity|];
  cbn [debugLogs addDebugLog setTranscription setIsProcessing setupAudioRecord_init
       call suspend escape processAudio_catch];
  rewrite <- ?app_assoc; cbn [app];
  first
    [ exists [], []; reflexivity
    | eexists [], [_]; reflexivity
    | eexists [_; _], []; reflexivity ].

Lemma processAudio_catch_caught (error : JsError) (w : World) :
  caught ("Error processing audio: " +:+ message error) w (processAudio_catch error w)
  /\ transcription (processAudio_catch error w) = error_transcript error
  /\ isProcessing (processAudio_catch error w) = false.
Proof. split; [entry_appended | split; reflexivity]. Qed.


End Failures.



(** ** Properties of whole sessions *)

Section Sessions.
Context (rt : Runtime) (dev : Device).

(** The four ways [processAudio] reaches its first [await] or its end. *)
Lemma processAudio_cases (audio : string) (w : World) :
  let w1 := addDebugLog "Processing audio..." (setIsProcessing true w) in
  let w2 := addDebugLog "Starting transcription..." w1 in
  (truthy (Whisper w) = false
   /\ processAudio rt dev audio w =
      processAudio_catch (mkError "Whisper not initialized") w1)
  \/ (truthy (Whisper w) = true
      /\ typeof_function (field rt (Whisper w) "transcribe") = false
      /\ processAudio rt dev audio w =
         processAudio_catch
           (mkError (not_callable_message rt (Whisper w) "transcribe")) w2)
  \/ (truthy (Whisper w) = true
      /\ typeof_function (field rt (Whisper w) "transcribe") = true
      /\ exists returned,
           transcribe_returns dev audio = Normal returned
           /\ processAudio rt dev audio w =
              suspend (TProcTranscribe returned) (call (CTranscribe audio) w2))
  \/ (truthy (Whisper w) = true
      /\ typeof_function (field rt (Whisper w) "transcribe") = true
      /\ exists error,
           transcribe_returns dev audio = Throw error
           /\ processAudio rt dev audio w =
              processAudio_catch error (call (CTranscribe audio) w2)).
Proof.
  cbn zeta. unfold processAudio, call_transcribe.
  cbn [Whisper addDebugLog setIsProcessing].
  destruct (truthy (Whisper w)) eqn:Htruthy; cbn [negb]; [|left; split; reflexivity].
  right. rewrite (get_prop_truthy rt _ _ Htruthy).
  destruct (typeof_function (field rt (Whisper w) "transcribe")) eqn:Hfun.
  - right. destruct (transcribe_returns dev audio) as [returned|error] eqn:Hret.
    + left. repeat split. exists returned. split; reflexivity.
    + right. repeat split. exists error. split; reflexivity.
  - left. repeat split.
Qed.


Ltac split_matches :=
  repeat match goal with
         | |- context [match ?c with _ => _ end] => destruct c eqn:?
         end.

Ltac open_processAudio :=
  repeat match goal with
         | |- context [processAudio rt dev ?a ?w] =>
             destruct (processAudio_cases a w)
               as [(? & ->) | [(? & ? & ->) | [(? & ? & ? & ? & ->) | (? & ? & ? & ? & ->)]]]
         end.

Ltac open_handlers :=
  unfold requestMicrophonePermission_answered, setupAudioRecord_resumed,
    setupAudioRecord_init, initWhispers_checked,
    initWhispers_copied, initWhispers_initialized, initWhispers_init,
    stopRecording_captured, stopRecording_moved, stopRecording_statted,
    processAudio_result, processAudio_branches, deleteAudio_unlinked,
    playAudio_loaded,
    playAudio_finished, stopAudio_stopped, startRecording, stopRecording,
    playAudio, stopAudio, deleteAudio, processAudio_settle, processAudio_catch,
    initWhispers_catch, stopRecording_catch;
  split_matches;
  open_processAudio;
  unfold processAudio_catch.

(** Splits a goal [step rt dev e w = Some w' -> Q] into one goal per way the
    step can go, with [w'] replaced in [Q] by the world that results. *)
Ltac step_cases :=
  match goal with
  | |- step _ _ ?e ?w = Some ?w' -> _ =>
      let Hs := fresh "Hs" in
      let Q := fresh "Q" in
      intros Hs; pattern w';
      match goal with |- ?P _ => set (Q := P) end;
      revert Hs;
      destruct e as [started | | constructed | stopped | | i reply]; cbn [step];
      [ destruct (isRecording w) eqn:?; [discriminate|]
      | destruct (isRecording w) eqn:?; [|discriminate]
      | destruct (has_asset w && negb (isPlaying w)) eqn:?; [|discriminate]
      | destruct (has_asset w && isPlaying w) eqn:?; [|discriminate]
      | destruct (has_asset w) eqn:?; [|discriminate]
      | let t := fresh "t" in
        destruct (pending w !! i) as [t|] eqn:?; [|discriminate];
        destruct t, reply; cbn [continue]; try discriminate;
        unfold processAudio_transcribed, processAudio_resolved;
        try match goal with
            | |- (if settles ?a then _ else _) = _ -> _ =>
                destruct a eqn:?; cbn [settles]; try discriminate
            end ];
      intros [= <-]; open_handlers; subst Q; cbn beta
  end.

Lemma count_calls_app (P : Call -> bool) (l1 l2 : list Call) :
  count_calls P (l1 ++ l2) = count_calls P l1 + count_calls P l2.
Proof. induction l1 as [|c l1 IH]; cbn; [reflexivity | rewrite IH; lia]. Qed.

Ltac world_fields :=
  cbn [isRecording transcription isProcessing audioFile isPlaying audioDuration
       debugLogs Whisper sound calls pending uncaught
       setIsRecording setTranscription setIsProcessing setAudioFile setIsPlaying
       setAudioDuration addDebugLog assign_Whisper assign_sound call suspend
       resume escape] in *.

Lemma session_reachable (init : Completion ()) (es : list Event) (w : World) :
  run rt dev es (mount dev init initial_world) = Some w -> Reachable rt dev w.
Proof. apply run_reachable, reach_mount. Qed.

Lemma recording_calls_balance (w : World) :
  Reachable rt dev w ->
  count_calls is_start (calls w) =
  count_calls is_stop (calls w) + (if isRecording w then 1 else 0).
Proof.
  induction 1 as [init | w w' e _ IH Hstep].
  - unfold mount, initWhispers, setupAudioRecord, setupAudioRecord_init.
    destruct (android dev); [|destruct init]; reflexivity.
  - revert Hstep. step_cases; world_fields;
      rewrite ?count_calls_app; cbn [count_calls is_start is_stop];
      try match goal with H : isRecording w = _ |- _ => rewrite H in IH end; lia.
Qed.

(** X1: after any session, the calls made to [AudioRecord.start] and to
    [AudioRecord.stop] are in balance with the recording flag: as many stops
    as starts while the flag is clear, exactly one start more while it is
    set. *)
Theorem recording_calls_balanced (init : Completion ()) (es : list Event) (w : World) :
  run rt dev es (mount dev init initial_world) = Some w ->
  count_calls is_start (calls w) =
  count_calls is_stop (calls w) + (if isRecording w then 1 else 0).
Proof. intros Hrun. eapply recording_calls_balance, session_reachable, Hrun. Qed.

Lemma processing_has_task (w : World) :
  Reachable rt dev w ->
  isProcessing w = true -> existsb proc_task (pending w) = true.
Proof.
  induction 1 as [init | w w' e _ IH Hstep].
  - unfold mount, initWhispers, setupAudioRecord, setupAudioRecord_init.
    destruct (android dev); [|destruct init]; discriminate.
  - revert Hstep. step_cases; world_fields;
      rewrite ?existsb_app; cbn [existsb proc_task];
      rewrite ?orb_true_r, ?orb_false_r, ?app_nil_r;
      try (intros _; reflexivity); try discriminate; try exact IH;
      intros Hp; specialize (IH Hp);
      match goal with
      | Hl : pending w !! _ = Some ?t |- _ =>
          rewrite (existsb_delete_other proc_task _ _ t Hl eq_refl); exact IH
      end.
Qed.

(** X2: after any session, whenever the processing flag is set, a
    [processAudio] is suspended on the engine or on the promise of its
    result: the flag is never left set by a transcription that has ended. *)
Theorem processing_flag_has_pending_transcription
    (init : Completion ()) (es : list Event) (w : World) :
  run rt dev es (mount dev init initial_world) = Some w ->
  isProcessing w = true ->
  existsb proc_task (pending w) = true.
Proof. intros Hrun. eapply processing_has_task, session_reachable, Hrun. Qed.

Lemma step_keeps_uncaught (e : Event) (w w' : World) :
  capture_and_playback_succeed e = true ->
  step rt dev e w = Some w' ->
  uncaught w' = uncaught w.
Proof.
  intros Hok Hstep. revert Hstep Hok.
  step_cases; world_fields; cbn [capture_and_playback_succeed completes andb];
    try reflexivity; try discriminate.
Qed.

Lemma run_keeps_uncaught (es : list Event) (w w' : World) :
  forallb capture_and_playback_succeed es = true ->
  run rt dev es w = Some w' ->
  uncaught w' = uncaught w.
Proof.
  revert w. induction es as [|e es IH]; intros w; cbn [run forallb].
  - intros _ [= <-]. reflexivity.
  - intros Hok. apply andb_true_iff in Hok as [He Hes].
    destruct (step rt dev e w) as [w1|] eqn:Hstep; [|discriminate].
    intros Hrun. rewrite (IH w1 Hes Hrun). eapply step_keeps_uncaught; eassumption.
Qed.

(** X3: in a session where the calls to the capture collaborator and the
    synchronous calls to the playback collaborator succeed, no failure ever
    leaves a handler, whatever the file store, the engine, the permission
    request and the playback callbacks answer. *)
Theorem nothing_escapes_when_capture_and_playback_succeed
    (init : Completion ()) (es : list Event) (w : World) :
  completes init = true ->
  forallb capture_and_playback_succeed es = true ->
  run rt dev es (mount dev init initial_world) = Some w ->
  uncaught w = [].
Proof.
  intros Hinit Hes Hrun. rewrite (run_keeps_uncaught es _ w Hes Hrun).
  unfold mount, initWhispers, setupAudioRecord, setupAudioRecord_init.
  destruct (android dev); [reflexivity|].
  destruct init; [reflexivity | discriminate Hinit].
Qed.

Lemma platform_calls (w : World) :
  Reachable rt dev w ->
  (existsb is_permission_request (calls w) = true -> android dev = true)
  /\ (existsb is_asset_copy (calls w) = true -> android dev = true)
  /\ (existsb is_bundle_copy (calls w) = true -> android dev = false).
Proof.
  induction 1 as [init | w w' e _ IH Hstep].
  - unfold mount, initWhispers, setupAudioRecord, setupAudioRecord_init.
    destruct (android dev); [|destruct init]; cbn; repeat split; congruence.
  - revert Hstep. step_cases; world_fields;
      rewrite ?existsb_app;
      cbn [existsb is_permission_request is_asset_copy is_bundle_copy];
      rewrite ?orb_false_r, ?orb_true_r; try exact IH;
      destruct IH as (IHp & IHa & IHb); repeat split; intros; auto.
Qed.

(** X4: after any session on a device that is not Android, the microphone
    permission was never requested and the model was never copied from the
    asset store; on Android the model was never copied from the bundle
    directory. *)
Theorem platform_specific_calls (init : Completion ()) (es : list Event) (w : World) :
  run rt dev es (mount dev init initial_world) = Some w ->
  (android dev = false ->
     existsb is_permission_request (calls w) = false
     /\ existsb is_asset_copy (calls w) = false)
  /\ (android dev = true -> existsb is_bundle_copy (calls w) = false).
Proof.
  intros Hrun. apply session_reachable in Hrun.
  destruct (platform_calls w Hrun) as (Hp & Ha & Hb).
  split.
  - intros Hios. split.
    + destruct (existsb is_permission_request (calls w)); [|reflexivity].
      rewrite Hp in Hios by reflexivity. discriminate Hios.
    + destruct (existsb is_asset_copy (calls w)); [|reflexivity].
      rewrite Ha in Hios by reflexivity. discriminate Hios.
  - intros Handroid.
    destruct (existsb is_bundle_copy (calls w)); [|reflexivity].
    rewrite Hb in Handroid by reflexivity. discriminate Handroid.
Qed.

Lemma count_tasks_app (P : Task -> bool) (l1 l2 : list Task) :
  count_tasks P (l1 ++ l2) = count_tasks P l1 + count_tasks P l2.
Proof. induction l1 as [|t l1 IH]; cbn; [reflexivity | rewrite IH; lia]. Qed.

Lemma count_tasks_delete (P : Task -> bool) (i : nat) (l : list Task) (t : Task) :
  l !! i = Some t ->
  count_tasks P l = count_tasks P (delete i l) + (if P t then 1 else 0).
Proof.
  revert i. induction l as [|t' l IH]; intros [|i] Hl; try discriminate Hl.
  - injection Hl as ->. change (delete 0 (t :: l)) with l. cbn [count_tasks]. lia.
  - specialize (IH i Hl).
    change (delete (S i) (t' :: l)) with (t' :: delete i l).
    cbn [count_tasks]. lia.
Qed.

Lemma engine_initialization (w : World) :
  Reachable rt dev w ->
  count_tasks before_init_task (pending w) + count_calls is_init_whisper (calls w) <= 1
  /\ count_tasks awaits_engine (pending w) <= count_calls is_init_whisper (calls w)
  /\ (count_calls is_init_whisper (calls w) = 0 -> Whisper w = VUndefined)
  /\ count_calls is_exists (calls w) = 1.
Proof.
  induction 1 as [init | w w' e _ IH Hstep].
  - unfold mount, initWhispers, setupAudioRecord, setupAudioRecord_init.
    destruct (android dev); [|destruct init]; cbn; repeat split; lia.
  - destruct IH as (IHa & IHb & IHc & IHd).
    revert Hstep. step_cases; world_fields;
      try match goal with
          | Hl : pending w !! _ = Some _ |- _ =>
              pose proof (count_tasks_delete before_init_task _ _ _ Hl);
              pose proof (count_tasks_delete awaits_engine _ _ _ Hl)
          end;
      cbn [before_init_task awaits_engine] in *;
      rewrite ?count_tasks_app, ?count_calls_app;
      cbn [count_tasks count_calls before_init_task awaits_engine
           is_init_whisper is_exists];
      (split; [lia|]); (split; [lia|]); (split; [|lia]);
      intros Hnone; first [apply IHc; lia | exfalso; lia].
Qed.

(** X5: after any session, [RNFS.exists] has been called exactly once and
    [initWhisper] at most once, so the engine is never created a second time;
    and as long as [initWhisper] has not been called, [Whisper] is still
    [undefined]. *)
Theorem engine_initialized_at_most_once
    (init : Completion ()) (es : list Event) (w : World) :
  run rt dev es (mount dev init initial_world) = Some w ->
  count_calls is_exists (calls w) = 1
  /\ count_calls is_init_whisper (calls w) <= 1
  /\ (count_calls is_init_whisper (calls w) = 0 -> Whisper w = VUndefined).
Proof.
  intros Hrun. apply session_reachable in Hrun.
  destruct (engine_initialization w Hrun) as (Ha & _ & Hc & Hd).
  split; [exact Hd|]. split; [lia | exact Hc].
Qed.

Lemma playing_has_sound (w : World) :
  Reachable rt dev w ->
  (existsb is_load_task (pending w) = true -> sound w <> None)
  /\ (isPlaying w = true -> sound w <> None).
Proof.
  induction 1 as [init | w w' e _ IH Hstep].
  - unfold mount, initWhispers, setupAudioRecord, setupAudioRecord_init.
    destruct (android dev); [|destruct init]; cbn; split; discriminate.
  - destruct IH as [IHl IHp].
    revert Hstep. step_cases; world_fields;
      rewrite ?existsb_app; cbn [existsb is_load_task];
      rewrite ?orb_false_r, ?orb_true_r;
      (split; [|first [exact IHp | discriminate | intros Hplay]]);
      try discriminate;
      try (intros Hl; apply IHl; eapply existsb_delete_sub; exact Hl);
      try exact IHl;
      try (apply IHl; eapply existsb_lookup; [eassumption | reflexivity]);
      try match goal with
          | Hplay : isPlaying w = true |- _ => specialize (IHp Hplay)
          end;
      try (intros Hl; specialize (IHl Hl));
      congruence.
Qed.

(** X6: after any session, while the playing flag is set a [Sound] instance
    exists, so [stopAudio] is not a no-op: it calls [sound.stop]. *)
Theorem stopAudio_stops_while_playing
    (init : Completion ()) (es : list Event) (w : World) (stopped : Completion ()) :
  run rt dev es (mount dev init initial_world) = Some w ->
  isPlaying w = true ->
  calls (stopAudio stopped w) = calls w ++ [CSoundStop].
Proof.
  intros Hrun Hplaying. apply session_reachable in Hrun.
  destruct (playing_has_sound w Hrun) as [_ Hsound].
  specialize (Hsound Hplaying). unfold stopAudio.
  destruct (sound w); [|contradiction]. destruct stopped; reflexivity.
Qed.


Lemma file_known_app (made more : list Call) (path : option string) :
  file_known dev made path -> file_known dev (made ++ more) path.
Proof.
  destruct path as [p|]; [|exact id]. intros [Hshape Hmoved]. split; [exact Hshape|].
  rewrite existsb_app, Hmoved. reflexivity.
Qed.

Lemma saved_before_use_snoc (earlier later : list Call) (c : Call) :
  saved_before_use earlier later ->
  match uses_file c with
  | Some path => existsb (moves_to path) (earlier ++ later) = true
  | None => True
  end ->
  saved_before_use earlier (later ++ [c]).
Proof.
  revert earlier. induction later as [|c' later IH]; intros earlier; cbn.
  - rewrite app_nil_r. intros _ Hc. split; [exact Hc | exact I].
  - intros [Hc' Hrest] Hc. split; [exact Hc'|].
    apply IH; [exact Hrest|]. rewrite <- app_assoc. exact Hc.
Qed.

Lemma asset_present_audioFile (w : World) (path : string) :
  asset_present w = Some path -> audioFile w = Some path.
Proof.
  unfold asset_present. destruct (audioFile w) as [p|]; [|discriminate].
  destruct (String.eqb p ""); [discriminate | exact id].
Qed.

Ltac known :=
  cbn [task_file];
  first
    [ exact I
    | repeat apply file_known_app; assumption
    | split;
      [ eexists; reflexivity
      | rewrite !existsb_app; cbn [existsb moves_to];
        rewrite String.eqb_refl, ?orb_true_r; reflexivity ] ].

Ltac moved_already :=
  cbn [uses_file app];
  first
    [ exact I
    | match goal with
      | H : file_known _ _ (Some ?p) |- existsb (moves_to ?p) _ = true =>
          rewrite ?existsb_app, (proj2 H); reflexivity
      end ].

Lemma files_tracked (w : World) :
  Reachable rt dev w ->
  file_known dev (calls w) (audioFile w)
  /\ Forall (fun t => file_known dev (calls w) (task_file t)) (pending w)
  /\ saved_before_use [] (calls w).
Proof.
  induction 1 as [init | w w' e _ IH Hstep].
  - unfold mount, initWhispers, setupAudioRecord, setupAudioRecord_init.
    destruct (android dev); [|destruct init]; cbn;
      repeat split; repeat constructor.
  - destruct IH as (IHa & IHp & IHs).
    revert Hstep. step_cases; world_fields;
      try match goal with
          | Hl : pending w !! _ = Some ?t |- _ =>
              pose proof (Forall_lookup_1 _ _ _ _ IHp Hl) as Htask;
              cbn [task_file] in Htask
          end;
      try match goal with
          | Ha : asset_present w = Some ?p |- _ =>
              pose proof IHa as Hasset;
              rewrite (asset_present_audioFile _ _ Ha) in Hasset
          end;
      (split;
       [ known
       | split;
         [ repeat (apply Forall_app; split);
           first
             [ apply Forall_delete; eapply Forall_impl;
               [exact IHp | intros ? ?; repeat apply file_known_app; assumption]
             | eapply Forall_impl;
               [exact IHp | intros ? ?; repeat apply file_known_app; assumption]
             | constructor; [known | constructor] ]
         | repeat (apply saved_before_use_snoc; [|moved_already]); exact IHs ] ]).
Qed.

(** X7: after any session, every call that hands a file to [RNFS.stat],
    [RNFS.unlink], [Whisper.transcribe] or [new Sound] comes after a call of
    [RNFS.moveFile] with that very path as destination: the controller only
    ever touches recordings it has saved itself. *)
Theorem used_files_were_saved (init : Completion ()) (es : list Event) (w : World) :
  run rt dev es (mount dev init initial_world) = Some w ->
  saved_before_use [] (calls w).
Proof. intros Hrun. eapply files_tracked, session_reachable, Hrun. Qed.

Lemma recording_path_nonempty (now : Z) : String.eqb (recording_path dev now) "" = false.
Proof.
  unfold recording_path. destruct (ExternalDirectoryPath dev); reflexivity.
Qed.

(** X8: after any session, an asset reference that is set is the path
    [<ExternalDirectoryPath>/recording_<timestamp>.wav] of some stop time; it
    is never the empty string, so the guards [if (audioFile)] of [playAudio]
    and [deleteAudio] and the rendered asset block see it. *)
Theorem asset_is_a_recording_path
    (init : Completion ()) (es : list Event) (w : World) (path : string) :
  run rt dev es (mount dev init initial_world) = Some w ->
  audioFile w = Some path ->
  (exists now, path = recording_path dev now)
  /\ asset_present w = Some path
  /\ has_asset w = true.
Proof.
  intros Hrun Hfile. apply session_reachable in Hrun.
  destruct (files_tracked w Hrun) as (Hknown & _ & _).
  rewrite Hfile in Hknown. destruct Hknown as [[now ->] _].
  split; [exists now; reflexivity|].
  unfold has_asset, asset_present. rewrite Hfile, recording_path_nonempty.
  split; reflexivity.
Qed.


Lemma run_cons (e : Event) (es : list Event) (w w' : World) :
  step rt dev e w = Some w' -> run rt dev (e :: es) w = run rt dev es w'.
Proof. intros Hstep. cbn [run]. rewrite Hstep. reflexivity. Qed.

Lemma step_resume (i : nat) (t : Task) (r : Reply) (w : World) :
  pending w !! i = Some t ->
  step rt dev (Resume i r) w = continue rt dev t r (resume i w).
Proof. intros Hl. cbn [step]. rewrite Hl. reflexivity. Qed.

(** From the press on "Start Recording" to the call of [processAudio], when
    the capture and the file store succeed. *)
Lemma record_and_save (w0 : World) (audio : string) (now size : Z) :
  pending w0 = [] ->
  isRecording w0 = false ->
  exists ws,
    run rt dev
      [PressStart (Normal ()); PressStop;
       Resume 0 (Captured (Normal audio) now);
       Resume 0 (Moved (Normal ()));
       Resume 0 (Statted (Normal size))] w0
    = Some (processAudio rt dev (recording_path dev now) ws)
    /\ pending ws = []
    /\ audioFile ws = Some (recording_path dev now)
    /\ isRecording ws = false
    /\ Whisper ws = Whisper w0
    /\ audioDuration ws = audioDuration w0
    /\ uncaught ws = uncaught w0
    /\ calls ws =
       calls w0 ++ [CAudioStart; CAudioStop;
                    CMoveFile audio (recording_path dev now);
                    CStat (recording_path dev now)].
Proof.
  intros Hpend Hrec.
  rewrite (run_cons _ _ w0 (startRecording (Normal ()) w0))
    by (cbn [step]; rewrite Hrec; reflexivity).
  rewrite (run_cons _ _ _ (stopRecording (startRecording (Normal ()) w0)))
    by reflexivity.
  remember (stopRecording (startRecording (Normal ()) w0)) as w2 eqn:E2.
  assert (P2 : pending w2 = [TStopCapture])
    by (subst w2; unfold stopRecording, startRecording; world_fields;
        rewrite Hpend; reflexivity).
  rewrite (run_cons _ _ w2 (stopRecording_captured dev (Normal audio) now (resume 0 w2)))
    by (rewrite (step_resume 0 TStopCapture) by (rewrite P2; reflexivity); reflexivity).
  remember (stopRecording_captured dev (Normal audio) now (resume 0 w2)) as w3 eqn:E3.
  assert (P3 : pending w3 = [TStopMove (recording_path dev now)])
    by (subst w3; unfold stopRecording_captured; world_fields;
        rewrite P2; reflexivity).
  rewrite (run_cons _ _ w3
             (stopRecording_moved (recording_path dev now) (Normal ()) (resume 0 w3)))
    by (rewrite (step_resume 0 (TStopMove (recording_path dev now)))
          by (rewrite P3; reflexivity); reflexivity).
  remember (stopRecording_moved (recording_path dev now) (Normal ()) (resume 0 w3))
    as w4 eqn:E4.
  assert (P4 : pending w4 = [TStopStat (recording_path dev now)])
    by (subst w4; unfold stopRecording_moved; world_fields;
        rewrite P3; reflexivity).
  rewrite (run_cons _ _ w4
             (stopRecording_statted rt dev (recording_path dev now) (Normal size)
                (resume 0 w4)))
    by (rewrite (step_resume 0 (TStopStat (recording_path dev now)))
          by (rewrite P4; reflexivity); reflexivity).
  cbn [run]. unfold stopRecording_statted.
  eexists. split; [reflexivity|].
  world_fields. rewrite P4.
  subst w4 w3 w2.
  unfold stopRecording_moved, stopRecording_captured, stopRecording, startRecording.
  world_fields. rewrite <- !app_assoc. repeat split; reflexivity.
Qed.

Lemma run_app_eq (es1 es2 : list Event) (w : World) :
  run rt dev (es1 ++ es2) w =
  match run rt dev es1 w with
  | Some w1 => run rt dev es2 w1
  | None => None
  end.
Proof.
  revert w. induction es1 as [|e es1 IH]; intros w; cbn [run app]; [reflexivity|].
  destruct (step rt dev e w); [apply IH | reflexivity].
Qed.

(** X9: starting from an idle screen with a usable engine, one recording that
    is captured, moved and measured without failure, and whose transcription
    resolves to a value with a truthy direct [text] that [JSON.stringify]
    accepts, ends with that text as the transcript, the recording path as the asset, both flags clear, nothing
    suspended, and exactly the calls start, stop, moveFile, stat, transcribe
    made in this order. *)
Theorem record_then_transcribe
    (w0 : World) (audio : string) (now size : Z) (returned result : JsVal)
    (json : string) :
  pending w0 = [] ->
  isRecording w0 = false ->
  truthy (Whisper w0) = true ->
  typeof_function (field rt (Whisper w0) "transcribe") = true ->
  transcribe_returns dev (recording_path dev now) = Normal returned ->
  await rt returned = Fulfilled result ->
  stringify rt result = Normal json ->
  promise_case rt result = false ->
  text_case rt result = true ->
  exists w,
    run rt dev
      ([PressStart (Normal ()); PressStop;
        Resume 0 (Captured (Normal audio) now);
        Resume 0 (Moved (Normal ()));
        Resume 0 (Statted (Normal size))] ++ [Resume 0 Settled]) w0 = Some w
    /\ transcription w = field rt result "text"
    /\ audioFile w = Some (recording_path dev now)
    /\ isRecording w = false
    /\ isProcessing w = false
    /\ pending w = []
    /\ audioDuration w = audioDuration w0
    /\ uncaught w = uncaught w0
    /\ calls w =
       calls w0 ++ [CAudioStart; CAudioStop;
                    CMoveFile audio (recording_path dev now);
                    CStat (recording_path dev now);
                    CTranscribe (recording_path dev now)].
Proof.
  intros Hpend Hrec Htruthy Hfun Hret Hawait Hjson Hpromise Htext.
  destruct (record_and_save w0 audio now size Hpend Hrec)
    as (ws & Hrun & Pws & Fws & Rws & Wws & Dws & Uws & Cws).
  rewrite run_app_eq, Hrun. rewrite <- Wws in Htruthy, Hfun.
  destruct (processAudio_cases (recording_path dev now) ws)
    as [(Hf & _) | [(_ & Hf & _) | [(_ & _ & r & Hr & Heq) | (_ & _ & e & He & _)]]];
    try congruence.
  rewrite Hret in Hr. injection Hr as <-. rewrite Heq. clear Heq.
  rewrite (run_cons _ _ _
             (processAudio_transcribed rt returned
                (resume 0
                   (suspend (TProcTranscribe returned)
                      (call (CTranscribe (recording_path dev now))
                         (addDebugLog "Starting transcription..."
                            (addDebugLog "Processing audio..."
                               (setIsProcessing true ws)))))))).
  2:{ rewrite (step_resume 0 (TProcTranscribe returned))
        by (world_fields; rewrite Pws; reflexivity).
      cbn [continue]. rewrite Hawait. reflexivity. }
  cbn [run]. eexists. split; [reflexivity|].
  unfold processAudio_transcribed. rewrite Hawait.
  unfold processAudio_result. rewrite Hjson, processAudio_branches_eq, Hpromise, Htext.
  world_fields.
  rewrite Pws, Cws, <- !app_assoc. repeat split; assumption || reflexivity.
Qed.

(** X10: with an asset present and nothing playing or suspended, pressing
    play, a successful load with duration [d] and the end of the playback
    go as follows: after the load the playing flag is set and the duration
    is [d]; when the playback ends well the flag is cleared and the
    completion is logged; when it ends with a decoding failure the failure is
    logged and the flag stays set. *)
Theorem play_to_the_end
    (w0 : World) (path : string) (d : Q) (success : bool) :
  asset_present w0 = Some path ->
  isPlaying w0 = false ->
  pending w0 = [] ->
  exists w1 w2,
    run rt dev [PressPlay (Normal ());
                Resume 0 (Loaded None (Normal d) (Normal ()))] w0 = Some w1
    /\ isPlaying w1 = true
    /\ audioDuration w1 = d
    /\ sound w1 = Some path
    /\ run rt dev [Resume 0 (Finished success)] w1 = Some w2
    /\ isPlaying w2 = negb success
    /\ audioDuration w2 = d
    /\ pending w2 = []
    /\ debugLogs w2 =
       debugLogs w0
       ++ [if success then "Successfully finished playing"
           else "Playback failed due to audio decoding errors"]
    /\ calls w2 = calls w0 ++ [CSoundNew path; CSoundGetDuration; CSoundPlay].
Proof.
  intros Hasset Hplaying Hpend.
  assert (Hhas : has_asset w0 = true) by (unfold has_asset; rewrite Hasset; reflexivity).
  rewrite (run_cons _ _ w0 (playAudio (Normal ()) w0))
    by (cbn [step]; rewrite Hhas, Hplaying; reflexivity).
  unfold playAudio. rewrite Hasset.
  remember (suspend TSoundLoad (assign_sound (Some path) (call (CSoundNew path) w0)))
    as wl eqn:El.
  assert (Pl : pending wl = [TSoundLoad])
    by (subst wl; world_fields; rewrite Hpend; reflexivity).
  rewrite (run_cons _ _ wl (playAudio_loaded None (Normal d) (Normal ()) (resume 0 wl)))
    by (rewrite (step_resume 0 TSoundLoad) by (rewrite Pl; reflexivity); reflexivity).
  cbn [run]. eexists. eexists. split; [reflexivity|].
  unfold playAudio_loaded. world_fields.
  split; [reflexivity|]. split; [reflexivity|].
  split; [subst wl; reflexivity|].
  rewrite step_resume with (t := TSoundPlay)
    by (world_fields; rewrite Pl; reflexivity).
  cbn [continue]. split; [reflexivity|].
  unfold playAudio_finished.
  destruct success; world_fields; rewrite Pl; subst wl; world_fields;
    rewrite <- ?app_assoc; repeat split; reflexivity.
Qed.


Lemma run_resume_head
    (t : Task) (rest : list Task) (r : Reply) (es : list Event) (w w' : World) :
  pending w = t :: rest ->
  continue rt dev t r (resume 0 w) = Some w' ->
  run rt dev (Resume 0 r :: es) w = run rt dev es w'.
Proof.
  intros Hpend Hcont. apply run_cons.
  rewrite (step_resume 0 t) by (rewrite Hpend; reflexivity). exact Hcont.
Qed.

(** X12: deleting the recording while its transcription is awaited does not
    cancel the transcription. When the deletion succeeds and the engine then
    answers with a truthy direct [text] that [JSON.stringify] accepts, the
    screen ends with no asset and duration 0, but with that text as the
    transcript. *)
Theorem delete_during_transcription
    (w0 : World) (path : string) (returned result : JsVal) (json : string) :
  pending w0 = [TProcTranscribe returned] ->
  asset_present w0 = Some path ->
  await rt returned = Fulfilled result ->
  stringify rt result = Normal json ->
  promise_case rt result = false ->
  text_case rt result = true ->
  exists w,
    run rt dev [PressDelete; Resume 1 (Unlinked (Normal ())); Resume 0 Settled] w0
    = Some w
    /\ audioFile w = None
    /\ audioDuration w = 0%Q
    /\ transcription w = field rt result "text"
    /\ isProcessing w = false
    /\ pending w = []
    /\ calls w = calls w0 ++ [CUnlink path].
Proof.
  intros Hpend Hasset Hawait Hjson Hpromise Htext.
  rewrite (run_cons _ _ w0 (deleteAudio w0))
    by (cbn [step]; unfold has_asset; rewrite Hasset; reflexivity).
  unfold deleteAudio. rewrite Hasset.
  rewrite (run_cons _ _ _
             (deleteAudio_unlinked (Normal ())
                (resume 1 (suspend TDeleteUnlink (call (CUnlink path) w0)))))
    by (rewrite (step_resume 1 TDeleteUnlink)
          by (world_fields; rewrite Hpend; reflexivity); reflexivity).
  rewrite (run_cons _ _ _
             (processAudio_transcribed rt returned
                (resume 0
                   (deleteAudio_unlinked (Normal ())
                      (resume 1 (suspend TDeleteUnlink (call (CUnlink path) w0))))))).
  2:{ rewrite (step_resume 0 (TProcTranscribe returned))
        by (unfold deleteAudio_unlinked; world_fields; rewrite Hpend; reflexivity).
      cbn [continue]. rewrite Hawait. reflexivity. }
  cbn [run]. eexists. split; [reflexivity|].
  unfold processAudio_transcribed. rewrite Hawait.
  unfold processAudio_result. rewrite Hjson, processAudio_branches_eq, Hpromise, Htext.
  unfold deleteAudio_unlinked. world_fields. rewrite Hpend.
  repeat split; reflexivity.
Qed.

(** X13: when saving the recording fails, no transcription is started. If
    [RNFS.moveFile] fails, the asset reference is left as it was; if
    [RNFS.stat] fails after the move, the asset reference is already the new
    path. In both cases the failure is the last log entry, the transcript and
    the processing flag are untouched, nothing stays suspended and the engine
    is not called. *)
Theorem save_failure_starts_no_transcription
    (w0 : World) (audio : string) (now : Z) (error : JsError) :
  pending w0 = [] ->
  isRecording w0 = true ->
  (exists w,
     run rt dev [PressStop; Resume 0 (Captured (Normal audio) now);
                 Resume 0 (Moved (Throw error))] w0 = Some w
     /\ audioFile w = audioFile w0
     /\ transcription w = transcription w0
     /\ isProcessing w = isProcessing w0
     /\ isRecording w = false
     /\ pending w = []
     /\ debugLogs w =
        debugLogs w0 ++ ["Stopped recording";
                         "Error saving audio file: " +:+ message error]
     /\ calls w = calls w0 ++ [CAudioStop; CMoveFile audio (recording_path dev now)])
  /\ (exists w,
        run rt dev [PressStop; Resume 0 (Captured (Normal audio) now);
                    Resume 0 (Moved (Normal ()));
                    Resume 0 (Statted (Throw error))] w0 = Some w
        /\ audioFile w = Some (recording_path dev now)
        /\ transcription w = transcription w0
        /\ isProcessing w = isProcessing w0
        /\ isRecording w = false
        /\ pending w = []
        /\ last (debugLogs w) = Some ("Error saving audio file: " +:+ message error)
        /\ calls w = calls w0 ++ [CAudioStop; CMoveFile audio (recording_path dev now);
                                  CStat (recording_path dev now)]).
Proof.
  intros Hpend Hrec.
  assert (Hstop : forall es,
             run rt dev (PressStop :: Resume 0 (Captured (Normal audio) now) :: es) w0
             = run rt dev es
                 (stopRecording_captured dev (Normal audio) now
                    (resume 0 (stopRecording w0)))).
  { intros es.
    rewrite (run_cons _ _ w0 (stopRecording w0))
      by (cbn [step]; rewrite Hrec; reflexivity).
    apply (run_resume_head TStopCapture []);
      [unfold stopRecording; world_fields; rewrite Hpend|]; reflexivity. }
  remember (stopRecording_captured dev (Normal audio) now (resume 0 (stopRecording w0)))
    as w3 eqn:E3.
  assert (P3 : pending w3 = [TStopMove (recording_path dev now)])
    by (subst w3; unfold stopRecording_captured, stopRecording; world_fields;
        rewrite Hpend; reflexivity).
  split.
  - rewrite Hstop.
    erewrite run_resume_head; [| exact P3 | reflexivity].
    cbn [run]. eexists. split; [reflexivity|].
    unfold stopRecording_moved, stopRecording_catch. world_fields. rewrite P3.
    subst w3. unfold stopRecording_captured, stopRecording. world_fields.
    rewrite <- !app_assoc. repeat split; reflexivity.
  - rewrite Hstop.
    erewrite run_resume_head; [| exact P3 | reflexivity].
    remember (stopRecording_moved (recording_path dev now) (Normal ()) (resume 0 w3))
      as w4 eqn:E4.
    assert (P4 : pending w4 = [TStopStat (recording_path dev now)])
      by (subst w4; unfold stopRecording_moved; world_fields; rewrite P3; reflexivity).
    erewrite run_resume_head; [| exact P4 | reflexivity].
    cbn [run]. eexists. split; [reflexivity|].
    unfold stopRecording_statted, stopRecording_catch. world_fields. rewrite P4.
    subst w4 w3. unfold stopRecording_moved, stopRecording_captured, stopRecording.
    world_fields. rewrite last_snoc, <- !app_assoc. repeat split; reflexivity.
Qed.

Lemma count_entries_app (entry : string) (l1 l2 : list string) :
  count_entries entry (l1 ++ l2) = count_entries entry l1 + count_entries entry l2.
Proof. induction l1 as [|e l1 IH]; cbn; [reflexivity | rewrite IH; lia]. Qed.

Lemma startup_calls (w : World) :
  Reachable rt dev w ->
  count_calls is_audio_init (calls w) + count_tasks setup_task (pending w) = 1
  /\ Forall (model_call_ok dev) (calls w)
  /\ count_calls is_model_copy (calls w) =
     count_entries "Model exists: false" (debugLogs w).
Proof.
  induction 1 as [init | w w' e _ IH Hstep].
  - unfold mount, initWhispers, setupAudioRecord, setupAudioRecord_init.
    destruct (android dev); [|destruct init]; cbn;
      repeat split; repeat constructor.
  - destruct IH as (IHa & IHb & IHc).
    revert Hstep. step_cases; world_fields;
      try match goal with
          | Hl : pending w !! _ = Some _ |- _ =>
              pose proof (count_tasks_delete setup_task _ _ _ Hl) as Hsetup;
              cbn [setup_task] in Hsetup
          end;
      repeat match goal with
             | Hb : negb ?b = _ |- _ => destruct b; try discriminate Hb; clear Hb
             end;
      (split;
       [ rewrite ?count_tasks_app, ?count_calls_app;
         cbn [count_tasks count_calls setup_task is_audio_init]; lia
       | split;
         [ repeat (apply Forall_app; split); try exact IHb; repeat constructor
         | rewrite ?count_calls_app, ?count_entries_app;
           cbn [count_calls count_entries is_model_copy];
           repeat match goal with
                  | |- context [String.eqb ?e "Model exists: false"] =>
                      let b := eval lazy in (String.eqb e "Model exists: false") in
                      change (String.eqb e "Model exists: false") with b
                  end;
           cbv iota; lia ] ]).
Qed.

(** X11: after any session, in whatever order the collaborators answered
    during startup: [AudioRecord.init] has been called exactly once unless the
    permission round trip is still under way, so no permission answer keeps it
    from being called; every call about the model file names [ggml-base.bin]
    and the model path in the documents directory; and the model file has
    been copied exactly as often as [RNFS.exists] was logged to have answered
    [false]. *)
Theorem startup_calls_in_every_order
    (init : Completion ()) (es : list Event) (w : World) :
  run rt dev es (mount dev init initial_world) = Some w ->
  count_calls is_audio_init (calls w) + count_tasks setup_task (pending w) = 1
  /\ Forall (model_call_ok dev) (calls w)
  /\ count_calls is_model_copy (calls w) =
     count_entries "Model exists: false" (debugLogs w).
Proof. intros Hrun. eapply startup_calls, session_reachable, Hrun. Qed.

End Sessions.

Lemma recording_calls_balanced_witness :
  run sample_runtime sample_device transcribing_session session_start
  = Some transcribing_world
  /\ count_calls is_start (calls transcribing_world) =
     count_calls is_stop (calls transcribing_world)
     + (if isRecording transcribing_world then 1 else 0).
Proof.
  split; [vm_compute; reflexivity|].
  apply (recording_calls_balanced sample_runtime sample_device (Normal ())
           transcribing_session transcribing_world).
  vm_compute. reflexivity.
Defined.

Lemma processing_flag_has_pending_transcription_witness :
  run sample_runtime sample_device transcribing_session session_start
  = Some transcribing_world
  /\ isProcessing transcribing_world = true
  /\ existsb proc_task (pending transcribing_world) = true.
Proof.
  split; [vm_compute; reflexivity|]. split; [reflexivity|].
  apply (processing_flag_has_pending_transcription sample_runtime sample_device
           (Normal ()) transcribing_session transcribing_world).
  - vm_compute. reflexivity.
  - reflexivity.
Defined.

Lemma nothing_escapes_witness :
  forallb capture_and_playback_succeed playing_session = true
  /\ run sample_runtime sample_device playing_session session_start = Some playing_world
  /\ uncaught playing_world = [].
Proof.
  split; [reflexivity|]. split; [vm_compute; reflexivity|].
  apply (nothing_escapes_when_capture_and_playback_succeed sample_runtime
           sample_device (Normal ()) playing_session playing_world).
  - reflexivity.
  - reflexivity.
  - vm_compute. reflexivity.
Defined.

Lemma platform_specific_calls_witness :
  run sample_runtime sample_device playing_session session_start = Some playing_world
  /\ android sample_device = false
  /\ existsb is_permission_request (calls playing_world) = false.
Proof.
  split; [vm_compute; reflexivity|]. split; [reflexivity|].
  apply (proj1 (platform_specific_calls sample_runtime sample_device (Normal ())
                  playing_session playing_world ltac:(vm_compute; reflexivity))).
  reflexivity.
Defined.

Lemma engine_initialized_at_most_once_witness :
  run sample_runtime sample_device transcribing_session session_start
  = Some transcribing_world
  /\ count_calls is_init_whisper (calls transcribing_world) <= 1.
Proof.
  split; [vm_compute; reflexivity|].
  apply (engine_initialized_at_most_once sample_runtime sample_device (Normal ())
           transcribing_session transcribing_world).
  vm_compute. reflexivity.
Defined.

Lemma stopAudio_stops_while_playing_witness :
  run sample_runtime sample_device playing_session session_start = Some playing_world
  /\ isPlaying playing_world = true
  /\ calls (stopAudio (Normal ()) playing_world) = calls playing_world ++ [CSoundStop].
Proof.
  split; [vm_compute; reflexivity|]. split; [reflexivity|].
  apply (stopAudio_stops_while_playing sample_runtime sample_device (Normal ())
           playing_session playing_world (Normal ())).
  - vm_compute. reflexivity.
  - reflexivity.
Defined.

Lemma used_files_were_saved_witness :
  run sample_runtime sample_device playing_session session_start = Some playing_world
  /\ saved_before_use [] (calls playing_world).
Proof.
  split; [vm_compute; reflexivity|].
  apply (used_files_were_saved sample_runtime sample_device (Normal ())
           playing_session playing_world).
  vm_compute. reflexivity.
Defined.

Lemma asset_is_a_recording_path_witness :
  run sample_runtime sample_device playing_session session_start = Some playing_world
  /\ audioFile playing_world = Some "/ext/recording_1700000000000.wav"
  /\ has_asset playing_world = true.
Proof.
  split; [vm_compute; reflexivity|]. split; [reflexivity|].
  apply (asset_is_a_recording_path sample_runtime sample_device (Normal ())
           playing_session playing_world "/ext/recording_1700000000000.wav").
  - vm_compute. reflexivity.
  - reflexivity.
Defined.

Lemma record_then_transcribe_witness :
  pending ready_world = []
  /\ isRecording ready_world = false
  /\ exists w,
       run sample_runtime text_device
         ([PressStart (Normal ()); PressStop;
           Resume 0 (Captured (Normal "/tmp/test.wav") 1700000000000%Z);
           Resume 0 (Moved (Normal ()));
           Resume 0 (Statted (Normal 32044%Z))] ++ [Resume 0 Settled]) ready_world
       = Some w
       /\ transcription w = VStr "test".
Proof.
  split; [reflexivity|]. split; [reflexivity|].
  destruct (record_then_transcribe sample_runtime text_device ready_world
              "/tmp/test.wav" 1700000000000%Z 32044%Z
              (VObj [("text", VStr "test")]) (VObj [("text", VStr "test")]) "{}"
              eq_refl eq_refl eq_refl eq_refl eq_refl eq_refl eq_refl eq_refl eq_refl)
    as (w & Hrun & Htext & _).
  exists w. split; [exact Hrun | exact Htext].
Defined.

Lemma play_to_the_end_witness :
  let w0 := setAudioFile (Some "/ext/a.wav") initial_world in
  asset_present w0 = Some "/ext/a.wav"
  /\ exists w1 w2,
       run sample_runtime sample_device
         [PressPlay (Normal ()); Resume 0 (Loaded None (Normal (25 # 2)) (Normal ()))] w0
       = Some w1
       /\ isPlaying w1 = true
       /\ run sample_runtime sample_device [Resume 0 (Finished true)] w1 = Some w2
       /\ isPlaying w2 = false.
Proof.
  split; [reflexivity|].
  destruct (play_to_the_end sample_runtime sample_device
              (setAudioFile (Some "/ext/a.wav") initial_world) "/ext/a.wav"
              (25 # 2) true eq_refl eq_refl eq_refl)
    as (w1 & w2 & H1 & P1 & _ & _ & H2 & P2 & _).
  exists w1, w2. repeat split; assumption.
Defined.

Lemma delete_during_transcription_witness :
  let w0 := suspend (TProcTranscribe (VObj [("text", VStr "test")]))
              (setAudioFile (Some "/ext/a.wav") initial_world) in
  asset_present w0 = Some "/ext/a.wav"
  /\ exists w,
       run sample_runtime sample_device
         [PressDelete; Resume 1 (Unlinked (Normal ())); Resume 0 Settled] w0 = Some w
       /\ audioFile w = None
       /\ transcription w = VStr "test".
Proof.
  split; [reflexivity|].
  destruct (delete_during_transcription sample_runtime sample_device
              (suspend (TProcTranscribe (VObj [("text", VStr "test")]))
                 (setAudioFile (Some "/ext/a.wav") initial_world))
              "/ext/a.wav" (VObj [("text", VStr "test")]) (VObj [("text", VStr "test")])
              "{}" eq_refl eq_refl eq_refl eq_refl eq_refl eq_refl)
    as (w & Hrun & Hfile & _ & Htext & _).
  exists w. repeat split; assumption.
Defined.

Lemma save_failure_starts_no_transcription_witness :
  let w0 := setIsRecording true initial_world in
  isRecording w0 = true
  /\ exists w,
       run sample_runtime sample_device
         [PressStop; Resume 0 (Captured (Normal "/tmp/test.wav") 1700000000000%Z);
          Resume 0 (Moved (Throw (mkError "EACCES")))] w0 = Some w
       /\ audioFile w = None
       /\ isProcessing w = false.
Proof.
  split; [reflexivity|].
  destruct (proj1 (save_failure_starts_no_transcription sample_runtime sample_device
                     (setIsRecording true initial_world) "/tmp/test.wav"
                     1700000000000%Z (mkError "EACCES") eq_refl eq_refl))
    as (w & Hrun & Hfile & _ & Hproc & _).
  exists w. repeat split; assumption.
Defined.

Lemma startup_calls_in_every_order_witness :
  run sample_runtime sample_device playing_session session_start = Some playing_world
  /\ count_calls is_audio_init (calls playing_world)
     + count_tasks setup_task (pending playing_world) = 1.
Proof.
  split; [vm_compute; reflexivity|].
  apply (startup_calls_in_every_order sample_runtime sample_device (Normal ())
           playing_session playing_world).
  vm_compute. reflexivity.
Defined.
